(** * FightHistoryManager: the activity-windowed session manager

    A shallow embedding of [FightHistoryManager] (services/FightHistoryManager.js)
    and of the [/fight/timeout] endpoint of the API router, followed by the
    properties of the encounter state machine.

    Conventions of the embedding.
    - JavaScript numbers that the manager handles (millisecond timestamps,
      damage and healing values, counters) are integers; they are modelled
      by [Z].
    - [this.fights] is a JavaScript [Map] from fight id to a mutable fight
      object; it is modelled by a [gmap string Fight], and a mutation of the
      object stored under a key by an insertion under that key.
    - [Date.now()] is an input: every operation that reads the clock takes the
      reading as its argument [now].
    - [startNewFight] is an [async] function whose first statement awaits the
      lock.  A call therefore runs no further than the [await]; the rest of
      the body (the critical section) runs later, as a continuation.  The
      manager state carries the queue of the continuations that have not run
      yet, and running the next one is a step of its own. *)

From stdpp Require Import gmap strings list fin_maps pretty sorting.

Local Open Scope Z_scope.

(** ** Data model *)

(** A per-participant summary, produced by [user.getSummary()]; the manager
    stores it without looking inside (it only logs when a total arrives as
    text). *)
Inductive SummaryField :=
  | NumField (n : Z)
  | TextField (s : string).

Definition Summary := list (string * SummaryField).

(** The [userStats] field of a fight: [new Map()] when the fight is created,
    a plain object keyed by uid once [saveUserDataSnapshot] has run or the
    fight was loaded from disk. *)
Inductive UserStats :=
  | StatsMap
  | StatsObject (entries : gmap string Summary).

(** [Object.keys] of the field: a [Map] has no own enumerable property. *)
Definition userStatsEntries (u : UserStats) : gmap string Summary :=
  match u with
  | StatsMap => ∅
  | StatsObject o => o
  end.

Record Fight := mkFight {
  id : string;
  startTime : Z;
  endTime : option Z;            (* null until the first update *)
  duration : Z;
  totalDamage : Z;
  totalHealing : Z;
  userStats : UserStats;
  isActive : bool
}.

Record CumulativeStats := mkCumulative {
  cumDamage : Z;                 (* totalDamage *)
  cumHealing : Z;                (* totalHealing *)
  cumFights : Z;                 (* totalFights *)
  cumDuration : Z;               (* totalDuration *)
  cumStartTime : option Z        (* startTime; absent in the load default *)
}.

Record Manager := mkManager {
  fights : gmap string Fight;
  currentFightId : option string;       (* null or a fight id *)
  currentFightStartTime : option Z;
  lastActivityTime : Z;
  fightTimeout : Z;
  cumulativeStats : CumulativeStats;
  pendingStarts : list Z                (* startNewFight calls awaiting the lock *)
}.

Global Instance SummaryField_eq_dec : EqDecision SummaryField.
Proof. solve_decision. Defined.
Global Instance UserStats_eq_dec : EqDecision UserStats.
Proof. solve_decision. Defined.
Global Instance Fight_eq_dec : EqDecision Fight.
Proof. solve_decision. Defined.
Global Instance CumulativeStats_eq_dec : EqDecision CumulativeStats.
Proof. solve_decision. Defined.

(** The constructor, run at clock reading [now]. *)
Definition newManager (now : Z) : Manager :=
  {| fights := ∅;
     currentFightId := None;
     currentFightStartTime := None;
     lastActivityTime := 0;
     fightTimeout := 15000;
     cumulativeStats := mkCumulative 0 0 0 0 (Some now);
     pendingStarts := [] |}.

(** Field updates. *)
Definition withFights (fs : gmap string Fight) (m : Manager) : Manager :=
  mkManager fs (currentFightId m) (currentFightStartTime m)
            (lastActivityTime m) (fightTimeout m) (cumulativeStats m)
            (pendingStarts m).

Definition withCurrent (c : option string) (st : option Z) (m : Manager) : Manager :=
  mkManager (fights m) c st (lastActivityTime m) (fightTimeout m)
            (cumulativeStats m) (pendingStarts m).

Definition withLastActivity (t : Z) (m : Manager) : Manager :=
  mkManager (fights m) (currentFightId m) (currentFightStartTime m) t
            (fightTimeout m) (cumulativeStats m) (pendingStarts m).

Definition withCumulative (c : CumulativeStats) (m : Manager) : Manager :=
  mkManager (fights m) (currentFightId m) (currentFightStartTime m)
            (lastActivityTime m) (fightTimeout m) c (pendingStarts m).

Definition withPending (q : list Z) (m : Manager) : Manager :=
  mkManager (fights m) (currentFightId m) (currentFightStartTime m)
            (lastActivityTime m) (fightTimeout m) (cumulativeStats m) q.

(** ** Operations *)

(** [`fight_${timestamp}`] *)
Definition fightId (timestamp : Z) : string := "fight_" +:+ pretty timestamp.

(** The object that [startNewFight] stores for a new fight. *)
Definition freshFight (timestamp : Z) : Fight :=
  {| id := fightId timestamp;
     startTime := timestamp;
     endTime := None;
     duration := 0;
     totalDamage := 0;
     totalHealing := 0;
     userStats := StatsMap;
     isActive := true |}.

(** The body of [updateCurrentFightStats] on the fight object. *)
Definition applyActivity (now : Z) (activityType : string) (value : Z)
    (f : Fight) : Fight :=
  let dmg := if decide (activityType = "damage")
             then totalDamage f + value else totalDamage f in
  let heal := if decide (activityType = "damage") then totalHealing f
              else if decide (activityType = "healing")
                   then totalHealing f + value else totalHealing f in
  {| id := id f;
     startTime := startTime f;
     endTime := Some now;
     duration := now - startTime f;
     totalDamage := dmg;
     totalHealing := heal;
     userStats := userStats f;
     isActive := isActive f |}.

Definition updateCurrentFightStats (now : Z) (activityType : string)
    (value : Z) (m : Manager) : Manager :=
  match currentFightId m with
  | None => m
  | Some c =>
      match fights m !! c with
      | None => m
      | Some f => withFights (<[c := applyActivity now activityType value f]> (fights m)) m
      end
  end.

(** The fight object after [finalizeCurrentFight]. *)
Definition closeFight (now : Z) (f : Fight) : Fight :=
  {| id := id f;
     startTime := startTime f;
     endTime := Some now;
     duration := now - startTime f;
     totalDamage := totalDamage f;
     totalHealing := totalHealing f;
     userStats := userStats f;
     isActive := false |}.

(** The cumulative counters after folding a closed fight in. *)
Definition foldFight (f : Fight) (c : CumulativeStats) : CumulativeStats :=
  {| cumDamage := cumDamage c + totalDamage f;
     cumHealing := cumHealing c + totalHealing f;
     cumFights := cumFights c + 1;
     cumDuration := cumDuration c + duration f;
     cumStartTime := cumStartTime c |}.

(** [finalizeCurrentFight]: no test of [isActive], and the current pointer is
    left as it is. *)
Definition finalizeCurrentFight (now : Z) (m : Manager) : Manager :=
  match currentFightId m with
  | None => m
  | Some c =>
      match fights m !! c with
      | None => m
      | Some f =>
          let f' := closeFight now f in
          withCumulative (foldFight f' (cumulativeStats m))
            (withFights (<[c := f']> (fights m)) m)
      end
  end.

(** A call of [startNewFight(timestamp)]: it runs up to [await
    this.fightLock.acquire()] and leaves the rest of its body queued. *)
Definition startNewFight (timestamp : Z) (m : Manager) : Manager :=
  withPending (pendingStarts m ++ [timestamp]) m.

(** The critical section of [startNewFight], run once the lock is held. *)
Definition startNewFightBody (now timestamp : Z) (m : Manager) : Manager :=
  let m1 := match currentFightId m with
            | Some _ => finalizeCurrentFight now m
            | None => m
            end in
  withCurrent (Some (fightId timestamp)) (Some timestamp)
    (withFights (<[fightId timestamp := freshFight timestamp]> (fights m1)) m1).

(** Modelled from the spec: the [Lock] class (models/Lock.js) is not among the
    sources.  The spec has creation and finalization of encounters serialized
    by one mutual-exclusion lock; the critical section of [startNewFight]
    contains no [await], so each queued continuation runs to its end before
    the next one starts, in the order of the calls. *)
Definition resumeStartNewFight (now : Z) (m : Manager) : Manager :=
  match pendingStarts m with
  | [] => m
  | timestamp :: q => startNewFightBody now timestamp (withPending q m)
  end.

(** All queued continuations run (the microtask queue drains). *)
Fixpoint runStarts (now : Z) (q : list Z) (m : Manager) : Manager :=
  match q with
  | [] => m
  | timestamp :: q' => runStarts now q' (startNewFightBody now timestamp m)
  end.

Definition settle (now : Z) (m : Manager) : Manager :=
  runStarts now (pendingStarts m) (withPending [] m).

(** The test at the head of [recordActivity]. *)
Definition shouldStartNewFight (m : Manager) (timestamp : Z) : bool :=
  negb (bool_decide (is_Some (currentFightId m)))
  || (bool_decide (lastActivityTime m > 0)
      && bool_decide (timestamp - lastActivityTime m > fightTimeout m)).

(** [recordActivity], up to its return. *)
Definition recordActivity (now timestamp : Z) (activityType : string)
    (value : Z) (m : Manager) : Manager :=
  let m1 := if shouldStartNewFight m timestamp
            then startNewFight timestamp m else m in
  let m2 := withLastActivity timestamp m1 in
  match currentFightId m2 with
  | Some _ => updateCurrentFightStats now activityType value m2
  | None => m2
  end.

(** A call of [recordActivity] followed by the queued continuations, as when
    every activity is delivered by an event-loop task of its own. *)
Definition recordActivityCall (now timestamp : Z) (activityType : string)
    (value : Z) (m : Manager) : Manager :=
  settle now (recordActivity now timestamp activityType value m).

Definition checkForInactivity (now currentTime : Z) (m : Manager) : Manager :=
  match currentFightId m with
  | Some _ =>
      if bool_decide (lastActivityTime m > 0)
         && bool_decide (currentTime - lastActivityTime m > fightTimeout m)
      then withCurrent None None (finalizeCurrentFight now m)
      else m
  | None => m
  end.

(** [forceStartNewFight] awaits [startNewFight]. *)
Definition forceStartNewFight (timestamp : Z) (m : Manager) : Manager :=
  startNewFight timestamp m.

Definition updateFightTimeout (timeoutMs : Z) (m : Manager) : Manager :=
  mkManager (fights m) (currentFightId m) (currentFightStartTime m)
            (lastActivityTime m) timeoutMs (cumulativeStats m)
            (pendingStarts m).

Definition clearHistory (now : Z) (m : Manager) : Manager :=
  mkManager ∅ None None 0 (fightTimeout m) (mkCumulative 0 0 0 0 (Some now))
            (pendingStarts m).

(** [saveUserDataSnapshot]: [userData] is given by its entries, each user
    already reduced to its summary. *)
Definition saveUserDataSnapshot (userData : list (string * Summary))
    (m : Manager) : Manager :=
  match currentFightId m with
  | None => m
  | Some c =>
      match fights m !! c with
      | None => m
      | Some f =>
          let f' := mkFight (id f) (startTime f) (endTime f) (duration f)
                      (totalDamage f) (totalHealing f)
                      (StatsObject (list_to_map (reverse userData)))
                      (isActive f) in
          withFights (<[c := f']> (fights m)) m
      end
  end.

Definition getCurrentFight (m : Manager) : option Fight :=
  match currentFightId m with
  | None => None
  | Some c => fights m !! c
  end.

(** The object returned by [getCumulativeStats]: the cumulative counters,
    with [totalFights] overridden by the size of the map. *)
Record CumulativeView := mkView {
  viewDamage : Z;
  viewHealing : Z;
  viewDuration : Z;
  viewStartTime : option Z;
  viewCurrentFight : option Fight;
  viewFights : Z
}.

Definition getCumulativeStats (m : Manager) : CumulativeView :=
  {| viewDamage := cumDamage (cumulativeStats m);
     viewHealing := cumHealing (cumulativeStats m);
     viewDuration := cumDuration (cumulativeStats m);
     viewStartTime := cumStartTime (cumulativeStats m);
     viewCurrentFight := getCurrentFight m;
     viewFights := Z.of_nat (size (fights m)) |}.

(** ** Persistence *)

(** What [JSON.parse] gives back for one fight of the history file.  The
    properties spread by [...fight] are carried as they are; [userStats] may
    be absent or null. *)
Record FightJson := mkFightJson {
  jId : string;
  jStartTime : Z;
  jEndTime : option Z;
  jDuration : Z;
  jTotalDamage : Z;
  jTotalHealing : Z;
  jUserStats : option (gmap string Summary);
  jIsActive : bool
}.

(** The history file, as the tree that [JSON.stringify] prints and
    [JSON.parse] reads back. *)
Record HistoryData := mkHistory {
  hFights : option (gmap string FightJson);
  hCumulativeStats : option CumulativeStats;
  hLastSaved : Z
}.

(** One entry of [fightsObject], as it is printed: [fight.userStats || {}]
    keeps the field (a [Map] and an object are both truthy), and a [Map]
    prints as the empty object. *)
Definition fightToJson (f : Fight) : FightJson :=
  {| jId := id f;
     jStartTime := startTime f;
     jEndTime := endTime f;
     jDuration := duration f;
     jTotalDamage := totalDamage f;
     jTotalHealing := totalHealing f;
     jUserStats := Some (userStatsEntries (userStats f));
     jIsActive := isActive f |}.

(** [saveFightHistory]: the data written to the file. *)
Definition saveFightHistory (now : Z) (m : Manager) : HistoryData :=
  {| hFights := Some (fightToJson <$> fights m);
     hCumulativeStats := Some (cumulativeStats m);
     hLastSaved := now |}.

(** One fight as [loadFightHistory] rebuilds it. *)
Definition fightOfJson (j : FightJson) : Fight :=
  {| id := jId j;
     startTime := jStartTime j;
     endTime := jEndTime j;
     duration := jDuration j;
     totalDamage := jTotalDamage j;
     totalHealing := jTotalHealing j;
     userStats := StatsObject (default ∅ (jUserStats j));
     isActive := jIsActive j |}.

(** [loadFightHistory]; [file] is [None] when the file cannot be read or
    parsed, and the manager is then left as it is.  Only the map of fights and
    the cumulative counters are assigned. *)
Definition loadFightHistory (file : option HistoryData) (m : Manager) : Manager :=
  match file with
  | None => m
  | Some h =>
      withCumulative (default (mkCumulative 0 0 0 0 None) (hCumulativeStats h))
        (withFights (fightOfJson <$> default ∅ (hFights h)) m)
  end.

(** ** The [/fight/timeout] endpoint *)

(** The [timeout] property of the request body. *)
Inductive JsValue :=
  | JsUndefined
  | JsNull
  | JsBool (b : bool)
  | JsNumber (n : Z)
  | JsString (s : string).

Record Response := mkResponse {
  status : Z;
  code : Z
}.

(** Modelled from the spec: [UserDataManager] is not among the sources; its
    [updateFightTimeout] is taken to hand the value to the manager's
    [updateFightTimeout], which updates [fightTimeoutMs]. *)
Definition userDataManager_updateFightTimeout (timeout : Z) (m : Manager) : Manager :=
  updateFightTimeout timeout m.

(** [router.post('/fight/timeout')] *)
Definition postFightTimeout (timeout : JsValue) (m : Manager) : Response * Manager :=
  match timeout with
  | JsNumber n =>
      if bool_decide (n < 5000) || bool_decide (n > 60000)
      then (mkResponse 400 1, m)
      else (mkResponse 200 0, userDataManager_updateFightTimeout n m)
  | _ => (mkResponse 400 1, m)
  end.

(** ** Runs of the manager *)

(** The steps that can be taken on a manager: the synchronous part of each
    public operation, and the resumption of a queued [startNewFight]. *)
Inductive Event :=
  | RecordActivity (now timestamp : Z) (activityType : string) (value : Z)
  | ResumeStartNewFight (now : Z)
  | CheckForInactivity (now currentTime : Z)
  | ForceStartNewFight (timestamp : Z)
  | ClearHistory (now : Z)
  | UpdateFightTimeout (timeoutMs : Z)
  | SaveUserDataSnapshot (userData : list (string * Summary)).

Definition step (e : Event) (m : Manager) : Manager :=
  match e with
  | RecordActivity now timestamp activityType value =>
      recordActivity now timestamp activityType value m
  | ResumeStartNewFight now => resumeStartNewFight now m
  | CheckForInactivity now currentTime => checkForInactivity now currentTime m
  | ForceStartNewFight timestamp => forceStartNewFight timestamp m
  | ClearHistory now => clearHistory now m
  | UpdateFightTimeout timeoutMs => updateFightTimeout timeoutMs m
  | SaveUserDataSnapshot userData => saveUserDataSnapshot userData m
  end.

Definition run (evs : list Event) (m : Manager) : Manager :=
  foldl (λ m e, step e m) m evs.

(** ** Observations on the store *)

Definition activeFights (fs : gmap string Fight) : gmap string Fight :=
  filter (λ kf, isActive kf.2 = true) fs.

Definition finalizedFights (fs : gmap string Fight) : gmap string Fight :=
  filter (λ kf, isActive kf.2 = false) fs.

(** At most one fight of the store is active. *)
Definition singleActive (fs : gmap string Fight) : Prop :=
  ∀ k1 k2 f1 f2,
    fs !! k1 = Some f1 → fs !! k2 = Some f2 →
    isActive f1 = true → isActive f2 = true → k1 = k2.

(** Every active fight of the store is the current one. *)
Definition activeIsCurrent (m : Manager) : Prop :=
  map_Forall (λ k f, isActive f = true → currentFightId m = Some k) (fights m).

(** The current pointer does not name a finalized fight. *)
Definition currentIsActive (m : Manager) : Prop :=
  map_Forall (λ k f, currentFightId m = Some k → isActive f = true) (fights m).

(** The counter of finalized fights agrees with the store. *)
Definition fightsCounted (m : Manager) : Prop :=
  cumFights (cumulativeStats m) = Z.of_nat (size (finalizedFights (fights m))).

Global Instance activeIsCurrent_dec m : Decision (activeIsCurrent m).
Proof. unfold activeIsCurrent. apply _. Defined.
Global Instance currentIsActive_dec m : Decision (currentIsActive m).
Proof. unfold currentIsActive. apply _. Defined.
Global Instance fightsCounted_dec m : Decision (fightsCounted m).
Proof. unfold fightsCounted. apply _. Defined.

(** The scenario of three activities on a manager built at clock reading
    [n0]; the call number [i] runs, and settles, at clock reading [ni]. *)
Definition scenario (n0 n1 n2 n3 : Z) : Manager :=
  recordActivityCall n3 20001 "healing" 30
    (recordActivityCall n2 5000 "damage" 50
       (recordActivityCall n1 0 "damage" 100 (newManager n0))).


(** What it means for a call of [recordActivity] to start a new fight: a
    [startNewFight(timestamp)] is issued, and once the call has settled the
    fight [fight_<timestamp>] is the current one, as created. *)
Definition startsNewFight (now timestamp : Z) (activityType : string)
    (value : Z) (m : Manager) : Prop :=
  pendingStarts (recordActivity now timestamp activityType value m)
    = pendingStarts m ++ [timestamp]
  ∧ let m' := recordActivityCall now timestamp activityType value m in
    currentFightId m' = Some (fightId timestamp)
    ∧ fights m' !! fightId timestamp = Some (freshFight timestamp)
    ∧ pendingStarts m' = [].

(** What it means for the call to stay in the current fight: no
    [startNewFight] is issued, the current pointer and the keys of the store
    are those of before. *)
Definition keepsCurrentFight (now timestamp : Z) (activityType : string)
    (value : Z) (m : Manager) : Prop :=
  let m' := recordActivity now timestamp activityType value m in
  pendingStarts m' = pendingStarts m
  ∧ currentFightId m' = currentFightId m
  ∧ dom (fights m') = dom (fights m)
  ∧ (pendingStarts m = [] →
     recordActivityCall now timestamp activityType value m = m').

(** Two fight objects with the same fields; [userStats] is compared as the
    mapping from uid to summary that it holds. *)
Definition sameEncounter (f g : Fight) : Prop :=
  id f = id g
  ∧ startTime f = startTime g
  ∧ endTime f = endTime g
  ∧ duration f = duration g
  ∧ totalDamage f = totalDamage g
  ∧ totalHealing f = totalHealing g
  ∧ userStatsEntries (userStats f) = userStatsEntries (userStats g)
  ∧ isActive f = isActive g.

(** A history file holding one encounter, saved while it was active. *)
Definition crashedFight : FightJson :=
  mkFightJson "fight_100" 100 (Some 150) 50 7 0 (Some ∅) true.

Definition crashedHistory : HistoryData :=
  {| hFights := Some {[ "fight_100" := crashedFight ]};
     hCumulativeStats := Some (mkCumulative 0 0 0 0 (Some 0));
     hLastSaved := 160 |}.

(** The manager of a new process, after it has loaded that file. *)
Definition restartedManager : Manager :=
  loadFightHistory (Some crashedHistory) (newManager 1000).

(** No fight of the store is active. *)
Definition noActive (fs : gmap string Fight) : Prop :=
  map_Forall (λ _ f, isActive f = false) fs.

(** The manager is consistent: the counter of finalized fights agrees with
    the store, and the current pointer names the active fight, if any. *)
Definition consistent (m : Manager) : Prop :=
  fightsCounted m ∧ activeIsCurrent m ∧ currentIsActive m.

(** The step creates no fight under an id that the store already holds: when
    a queued [startNewFight(timestamp)] resumes, [fight_<timestamp>] is not a
    key of the store. *)
Definition freshStart (e : Event) (m : Manager) : Prop :=
  match e with
  | ResumeStartNewFight _ =>
      match pendingStarts m with
      | timestamp :: _ => fights m !! fightId timestamp = None
      | [] => True
      end
  | _ => True
  end.

Fixpoint freshRun (evs : list Event) (m : Manager) : Prop :=
  match evs with
  | [] => True
  | e :: evs' => freshStart e m ∧ freshRun evs' (step e m)
  end.

(** ** Queries of the manager *)

(** One element of the array returned by [getAllFights]. *)
Record FightSummary := mkSummary {
  sumId : string;
  sumStartTime : Z;
  sumEndTime : option Z;
  sumDuration : Z;
  sumTotalDamage : Z;
  sumTotalHealing : Z;
  sumUserCount : nat                 (* Object.keys(fight.userStats).length *)
}.

Definition fightSummary (f : Fight) : FightSummary :=
  {| sumId := id f;
     sumStartTime := startTime f;
     sumEndTime := endTime f;
     sumDuration := duration f;
     sumTotalDamage := totalDamage f;
     sumTotalHealing := totalHealing f;
     sumUserCount := size (userStatsEntries (userStats f)) |}.

(** The order of [sort((a, b) => b.startTime - a.startTime)]: [a] may stand
    before [b] when [b] did not start later. *)
Definition newestFirst (a b : FightSummary) : Prop :=
  sumStartTime b ≤ sumStartTime a.

Global Instance newestFirst_dec a b : Decision (newestFirst a b).
Proof. unfold newestFirst. apply _. Defined.

(** [getAllFights]: the summaries of the fights that are not active, sorted.
    The order in which the [Map] is traversed, which decides between fights
    of equal start time, is not recorded by the store. *)
Definition getAllFights (m : Manager) : list FightSummary :=
  merge_sort newestFirst
    (fightSummary <$> (map_to_list (finalizedFights (fights m))).*2).


(** The object returned by [getCurrentFightStatus]. *)
Record FightStatus := mkStatus {
  statusFightId : option string;
  statusFightStartTime : option Z;
  statusLastActivityTime : Z;
  timeSinceLastActivity : Z;
  statusFightTimeout : Z;
  statusTotalFights : nat
}.

Definition getCurrentFightStatus (now : Z) (m : Manager) : FightStatus :=
  {| statusFightId := currentFightId m;
     statusFightStartTime := currentFightStartTime m;
     statusLastActivityTime := lastActivityTime m;
     timeSinceLastActivity :=
       if bool_decide (lastActivityTime m > 0)
       then now - lastActivityTime m else 0;
     statusFightTimeout := fightTimeout m;
     statusTotalFights := size (fights m) |}.

(** ** Further observations on the store *)

(** The sum of a field over the finalized fights of the store. *)
Definition sumFinalized (g : Fight → Z) (fs : gmap string Fight) : Z :=
  map_fold (λ _ f acc, acc + g f) 0 (finalizedFights fs).

(** The cumulative totals are the sums over the finalized fights. *)
Definition totalsFolded (m : Manager) : Prop :=
  cumDamage (cumulativeStats m) = sumFinalized totalDamage (fights m)
  ∧ cumHealing (cumulativeStats m) = sumFinalized totalHealing (fights m)
  ∧ cumDuration (cumulativeStats m) = sumFinalized duration (fights m).

(** The shape of a fight stored under key [k]: it carries its key as id, the
    key is made from its start time, and its duration is that of its end
    time; a fight with no end time yet is active and empty. *)
Definition fightShape (k : string) (f : Fight) : Prop :=
  id f = k
  ∧ k = fightId (startTime f)
  ∧ match endTime f with
    | None => duration f = 0 ∧ totalDamage f = 0 ∧ totalHealing f = 0
              ∧ isActive f = true
    | Some e => duration f = e - startTime f
    end.

(** The current pointer and the start time kept beside it name a fight of
    the store, or are both null. *)
Definition pointerInStore (m : Manager) : Prop :=
  match currentFightId m, currentFightStartTime m with
  | None, None => True
  | Some c, Some ts =>
      c = fightId ts
      ∧ ∃ f, fights m !! c = Some f ∧ startTime f = ts ∧ isActive f = true
  | _, _ => False
  end.

Definition wellFormed (m : Manager) : Prop :=
  map_Forall fightShape (fights m) ∧ pointerInStore m.

(** No step of the run is [clearHistory]. *)
Definition clearFree (evs : list Event) : Prop :=
  Forall (λ e, match e with ClearHistory _ => False | _ => True end) evs.

(** ** The client pages (public/script.js, public/history.js) *)

(** *** Colours of the participants *)

Definition colorHues : list Z := [210; 30; 270; 150; 330; 60; 180; 0; 240].

Record ColorShades := mkShades {
  dps : string;
  hps : string
}.

Global Instance ColorShades_eq_dec : EqDecision ColorShades.
Proof. solve_decision. Defined.

(** [`hsl(${h}, ${s}%, ${l}%)`]; [h] is undefined when it was read past the
    end of [colorHues]. *)
Definition hsl (h : option Z) (s l : Z) : string :=
  "hsl(" +:+ match h with Some h => pretty h | None => "undefined" end
  +:+ ", " +:+ pretty s +:+ "%, " +:+ pretty l +:+ "%)".

(** [getNextColorShades], with the global [colorIndex] passed in and
    returned. *)
Definition getNextColorShades (colorIndex : nat) : ColorShades * nat :=
  let h := colorHues !! colorIndex in
  (mkShades (hsl h 90 30) (hsl h 90 20),
   (colorIndex + 1) `mod` length colorHues)%nat.



(** *** The panels of the main window *)

(** Which elements carry the class [hidden]. *)
Record Panels := mkPanels {
  columnsHidden : bool;
  settingsHidden : bool;
  helpHidden : bool;
  passthroughTitleHidden : bool;
  buttonsHidden : list bool            (* allButtons, in their order *)
}.

Definition toggleSettings (p : Panels) : Panels :=
  if negb (settingsHidden p)
  then mkPanels false true (helpHidden p)
                (passthroughTitleHidden p) (buttonsHidden p)
  else mkPanels true false true
                (passthroughTitleHidden p) (buttonsHidden p).

Definition toggleHelp (p : Panels) : Panels :=
  if negb (helpHidden p)
  then mkPanels false (settingsHidden p) true
                (passthroughTitleHidden p) (buttonsHidden p)
  else mkPanels true true false
                (passthroughTitleHidden p) (buttonsHidden p).

(** The listener given to [onTogglePassthrough]. *)
Definition onTogglePassthrough (isIgnoring : bool) (p : Panels) : Panels :=
  if isIgnoring
  then mkPanels false true true false ((λ _, true) <$> buttonsHidden p)
  else mkPanels (columnsHidden p) (settingsHidden p) (helpHidden p) true
                ((λ _, false) <$> buttonsHidden p).

Inductive PanelEvent :=
  | ToggleSettings
  | ToggleHelp
  | TogglePassthrough (isIgnoring : bool).

Definition panelStep (e : PanelEvent) (p : Panels) : Panels :=
  match e with
  | ToggleSettings => toggleSettings p
  | ToggleHelp => toggleHelp p
  | TogglePassthrough isIgnoring => onTogglePassthrough isIgnoring p
  end.

(** Exactly one of the three containers is shown. *)
Definition onePanelShown (p : Panels) : Prop :=
  (columnsHidden p = false ∧ settingsHidden p = true ∧ helpHidden p = true)
  ∨ (columnsHidden p = true ∧ settingsHidden p = false ∧ helpHidden p = true)
  ∨ (columnsHidden p = true ∧ settingsHidden p = true ∧ helpHidden p = false).

(** *** The timeout slider *)

(** The [timeout] property of the body sent by the page's
    [updateFightTimeout(seconds)]; [seconds] is the result of [parseInt],
    [None] for NaN, which [JSON.stringify] prints as null. *)
Definition sliderTimeout (seconds : option Z) : JsValue :=
  match seconds with
  | Some s => JsNumber (s * 1000)
  | None => JsNull
  end.

(** The request of the page, served by the endpoint. *)
Definition sliderUpdateFightTimeout (seconds : option Z) (m : Manager)
    : Response * Manager :=
  postFightTimeout (sliderTimeout seconds) m.

(** [response.ok] *)
Definition responseOk (r : Response) : bool :=
  bool_decide (200 ≤ status r) && bool_decide (status r ≤ 299).

(** *** Updates of the participants *)

(** A property value of a user object received from the server: a number is
    the finite double [m * 2^e]; an object is kept as it is. *)
Inductive Field :=
  | FNull
  | FBool (b : bool)
  | FNumber (mantissa exponent : Z)
  | FString (s : string)
  | FObject (o : list (string * Z)).

Global Instance Field_eq_dec : EqDecision Field.
Proof. solve_decision. Defined.

(** The value of [o.key] in a condition; [None] is undefined. *)
Definition truthy (v : option Field) : bool :=
  match v with
  | None | Some FNull => false
  | Some (FBool b) => b
  | Some (FNumber mantissa _) => negb (bool_decide (mantissa = 0))
  | Some (FString s) => negb (bool_decide (s = ""))
  | Some (FObject _) => true
  end.

Definition isString (v : option Field) : bool :=
  match v with Some (FString _) => true | _ => false end.

Definition isNumber (v : option Field) : bool :=
  match v with Some (FNumber _ _) => true | _ => false end.

(** The body of the loop of [processDataUpdate] for one user id. *)
Definition updateUser (userId : string)
    (newUser existingUser : gmap string Field) : gmap string Field :=
  let u0 := <["id" := FString userId]> (newUser ∪ existingUser) in
  let hasNewValidName :=
    truthy (newUser !! "name") && isString (newUser !! "name")
    && negb (bool_decide (newUser !! "name" = Some (FString "未知"))) in
  let u1 :=
    if hasNewValidName
    then match newUser !! "name" with
         | Some v => <["name" := v]> u0
         | None => u0
         end
    else if negb (truthy (existingUser !! "name"))
            || bool_decide (existingUser !! "name" = Some (FString "..."))
         then <["name" := FString "..."]> u0
         else u0 in
  let hasNewProfession :=
    truthy (newUser !! "profession") && isString (newUser !! "profession") in
  let u2 :=
    if hasNewProfession
    then match newUser !! "profession" with
         | Some v => <["profession" := v]> u1
         | None => u1
         end
    else if negb (truthy (existingUser !! "profession"))
         then <["profession" := FString ""]> u1
         else u1 in
  let hasNewFightPoint := isNumber (newUser !! "fightPoint") in
  if hasNewFightPoint
  then match newUser !! "fightPoint" with
       | Some v => <["fightPoint" := v]> u2
       | None => u2
       end
  else if bool_decide (existingUser !! "fightPoint" = None)
       then <["fightPoint" := FNumber 0 0]> u2
       else u2.

(** [allUsers] after [processDataUpdate(data)]; [dataUser] is [data.user],
    [None] when it is missing.  Every user id of [data.user] is visited once
    and its new object depends on the entry of [allUsers] for that id
    alone. *)
Definition processDataUpdate (isPaused : bool)
    (dataUser : option (gmap string (gmap string Field)))
    (allUsers : gmap string (gmap string Field))
    : gmap string (gmap string Field) :=
  if isPaused then allUsers
  else match dataUser with
       | None => allUsers
       | Some users =>
           map_imap (λ userId newUser,
                       Some (updateUser userId newUser
                               (default ∅ (allUsers !! userId)))) users
           ∪ allUsers
       end.

(** * Properties *)

(** ** Basic facts on the operations *)

Lemma fightId_inj (t1 t2 : Z) : fightId t1 = fightId t2 → t1 = t2.
Proof.
  unfold fightId. intros H.
  apply (inj (String.app "fight_")) in H. by apply (inj pretty) in H.
Qed.

Lemma settle_nil (now : Z) (m : Manager) :
  pendingStarts m = [] → settle now m = m.
Proof.
  intros H. unfold settle. rewrite H. simpl.
  destruct m; simpl in *; by subst.
Qed.

Lemma shouldStartNewFight_no_current (m : Manager) (timestamp : Z) :
  currentFightId m = None → shouldStartNewFight m timestamp = true.
Proof. intros H. unfold shouldStartNewFight. by rewrite H. Qed.

Lemma shouldStartNewFight_current (m : Manager) (c : string) (timestamp : Z) :
  currentFightId m = Some c →
  shouldStartNewFight m timestamp
  = bool_decide (lastActivityTime m > 0)
    && bool_decide (timestamp - lastActivityTime m > fightTimeout m).
Proof. intros H. unfold shouldStartNewFight. by rewrite H. Qed.

Lemma updateCurrentFightStats_frame (now : Z) (ty : string) (v : Z) (m : Manager) :
  let m' := updateCurrentFightStats now ty v m in
  currentFightId m' = currentFightId m
  ∧ currentFightStartTime m' = currentFightStartTime m
  ∧ lastActivityTime m' = lastActivityTime m
  ∧ fightTimeout m' = fightTimeout m
  ∧ cumulativeStats m' = cumulativeStats m
  ∧ pendingStarts m' = pendingStarts m
  ∧ dom (fights m') = dom (fights m).
Proof.
  unfold updateCurrentFightStats.
  destruct (currentFightId m) as [c|] eqn:Hc; [|done].
  destruct (fights m !! c) as [f|] eqn:Hf; [|done].
  simpl. repeat split; try done.
  apply dom_insert_lookup_L. by rewrite Hf.
Qed.

Lemma finalizeCurrentFight_pending (now : Z) (m : Manager) :
  pendingStarts (finalizeCurrentFight now m) = pendingStarts m.
Proof.
  unfold finalizeCurrentFight.
  destruct (currentFightId m) as [c|]; [|done].
  by destruct (fights m !! c).
Qed.

Lemma finalizeCurrentFight_current (now : Z) (m : Manager) :
  currentFightId (finalizeCurrentFight now m) = currentFightId m.
Proof.
  unfold finalizeCurrentFight.
  destruct (currentFightId m) as [c|] eqn:Hc; [|done].
  by destruct (fights m !! c).
Qed.

Lemma startNewFightBody_pending (now ts : Z) (m : Manager) :
  pendingStarts (startNewFightBody now ts m) = pendingStarts m.
Proof.
  unfold startNewFightBody. simpl.
  destruct (currentFightId m); [|done].
  apply finalizeCurrentFight_pending.
Qed.

Lemma runStarts_app (now ts : Z) (q : list Z) (m : Manager) :
  runStarts now (q ++ [ts]) m = startNewFightBody now ts (runStarts now q m).
Proof.
  revert m. induction q as [|t q IH]; intros m; [done|]. simpl. apply IH.
Qed.

Lemma runStarts_pending (now : Z) (q : list Z) (m : Manager) :
  pendingStarts (runStarts now q m) = pendingStarts m.
Proof.
  revert m. induction q as [|t q IH]; intros m; [done|]. simpl.
  rewrite IH. apply startNewFightBody_pending.
Qed.

Lemma recordActivity_starts (now ts : Z) (ty : string) (v : Z) (m : Manager) :
  shouldStartNewFight m ts = true → startsNewFight now ts ty v m.
Proof.
  intros Hs. unfold startsNewFight, recordActivityCall, recordActivity.
  rewrite Hs.
  set (m2 := withLastActivity ts (startNewFight ts m)).
  set (m3 := match currentFightId m2 with
             | Some _ => updateCurrentFightStats now ty v m2
             | None => m2
             end).
  assert (Hp3 : pendingStarts m3 = pendingStarts m ++ [ts]).
  { unfold m3. destruct (currentFightId m2); [|done].
    destruct (updateCurrentFightStats_frame now ty v m2) as (_&_&_&_&_&->&_).
    done. }
  split; [done|].
  unfold settle. rewrite Hp3, runStarts_app.
  split; [done|]. split; [apply lookup_insert_eq|].
  by rewrite startNewFightBody_pending, runStarts_pending.
Qed.

Lemma recordActivity_keeps (now ts : Z) (ty : string) (v : Z) (m : Manager) :
  shouldStartNewFight m ts = false → keepsCurrentFight now ts ty v m.
Proof.
  intros Hs. unfold keepsCurrentFight, recordActivityCall, recordActivity.
  rewrite Hs.
  set (m2 := withLastActivity ts m).
  set (m3 := match currentFightId m2 with
             | Some _ => updateCurrentFightStats now ty v m2
             | None => m2
             end).
  assert (H3 : pendingStarts m3 = pendingStarts m
               ∧ currentFightId m3 = currentFightId m
               ∧ dom (fights m3) = dom (fights m)).
  { unfold m3. destruct (currentFightId m2); [|done].
    destruct (updateCurrentFightStats_frame now ty v m2)
      as (->&_&_&_&_&->&->). done. }
  destruct H3 as (Hp & Hc & Hd). repeat split; try done.
  intros Hq. apply settle_nil. by rewrite Hp.
Qed.

(** ** Boundary detection *)

(** C2: with a current encounter, [lastActivityTime = T > 0] and timeout [W],
    an activity at [T + W + 1] starts a new encounter and an activity at
    [T + W] or earlier does not; with no current encounter every activity
    starts one. *)
Theorem boundary_correctness (m : Manager) (now timestamp : Z)
    (activityType : string) (value : Z) :
  (∀ c, currentFightId m = Some c → lastActivityTime m > 0 →
     (timestamp = lastActivityTime m + fightTimeout m + 1 →
        startsNewFight now timestamp activityType value m)
     ∧ (timestamp ≤ lastActivityTime m + fightTimeout m →
        keepsCurrentFight now timestamp activityType value m))
  ∧ (currentFightId m = None →
       startsNewFight now timestamp activityType value m).
Proof.
  split.
  - intros c Hc HT. split; intros Hts.
    + apply recordActivity_starts.
      rewrite (shouldStartNewFight_current _ c) by done.
      rewrite !bool_decide_eq_true_2 by lia. done.
    + apply recordActivity_keeps.
      rewrite (shouldStartNewFight_current _ c) by done.
      rewrite (bool_decide_eq_false_2 (_ - _ > _)) by lia.
      by rewrite andb_false_r.
  - intros Hc. apply recordActivity_starts.
    by apply shouldStartNewFight_no_current.
Qed.

Lemma boundary_correctness_witness :
  let m := recordActivityCall 5000 5000 "damage" 50
             (recordActivityCall 0 0 "damage" 100 (newManager 0)) in
  startsNewFight 20001 20001 "healing" 30 m
  ∧ keepsCurrentFight 20000 20000 "healing" 30 m
  ∧ startsNewFight 0 0 "damage" 100 (newManager 0).
Proof.
  intros m.
  destruct (boundary_correctness m 20001 20001 "healing" 30) as [H1 _].
  destruct (boundary_correctness m 20000 20000 "healing" 30) as [H2 _].
  destruct (boundary_correctness (newManager 0) 0 0 "damage" 100) as [_ H3].
  split; [|split].
  - apply (H1 "fight_0"); [vm_compute; reflexivity | vm_compute; reflexivity
                          | vm_compute; reflexivity].
  - apply (H2 "fight_0"); [vm_compute; reflexivity | vm_compute; reflexivity
                          | vm_compute; discriminate].
  - apply H3. vm_compute; reflexivity.
Defined.

(** ** The aggregator *)

(** C10: an activity whose type is neither ['damage'] nor ['healing'], applied
    to an existing current encounter, leaves both totals as they are, sets
    [endTime] to the clock reading and [duration] to [endTime - startTime],
    and changes nothing else, in the encounter or in the manager. *)
Theorem other_activity_frame (m : Manager) (now value : Z)
    (activityType c : string) (f : Fight) :
  currentFightId m = Some c →
  fights m !! c = Some f →
  activityType ≠ "damage" →
  activityType ≠ "healing" →
  let f' := mkFight (id f) (startTime f) (Some now) (now - startTime f)
                    (totalDamage f) (totalHealing f) (userStats f)
                    (isActive f) in
  updateCurrentFightStats now activityType value m
  = withFights (<[c := f']> (fights m)) m
  ∧ fights (updateCurrentFightStats now activityType value m) !! c = Some f'
  ∧ ∀ k, k ≠ c →
      fights (updateCurrentFightStats now activityType value m) !! k
      = fights m !! k.
Proof.
  intros Hc Hf Hd Hh f'.
  assert (Hupd : updateCurrentFightStats now activityType value m
                 = withFights (<[c := f']> (fights m)) m).
  { unfold updateCurrentFightStats. rewrite Hc, Hf.
    unfold applyActivity. by rewrite !decide_False by done. }
  rewrite Hupd. simpl. split; [done|]. split.
  - apply lookup_insert_eq.
  - intros k Hk. by apply lookup_insert_ne.
Qed.

Lemma other_activity_frame_witness :
  let m := recordActivityCall 0 1000 "damage" 0 (newManager 0) in
  fights (updateCurrentFightStats 1500 "shield" 40 m) !! "fight_1000"
  = Some (mkFight "fight_1000" 1000 (Some 1500) 500 0 0 StatsMap true).
Proof.
  intros m.
  destruct (other_activity_frame m 1500 40 "shield" "fight_1000"
              (freshFight 1000))
    as (_ & H & _).
  - vm_compute; reflexivity.
  - vm_compute; reflexivity.
  - discriminate.
  - discriminate.
  - exact H.
Defined.

(** C9, as the code has it: the value is added to the accumulator of its
    kind, with no test of its sign; the totals of the current encounter do not
    decrease when the value is not negative. *)
Theorem nonnegative_activity_monotone (m : Manager) (now value : Z)
    (activityType c : string) (f : Fight) :
  currentFightId m = Some c →
  fights m !! c = Some f →
  ∃ f', fights (updateCurrentFightStats now activityType value m) !! c = Some f'
    ∧ (activityType = "damage" → totalDamage f' = totalDamage f + value)
    ∧ (activityType = "healing" → totalHealing f' = totalHealing f + value)
    ∧ (0 ≤ value →
       totalDamage f ≤ totalDamage f' ∧ totalHealing f ≤ totalHealing f').
Proof.
  intros Hc Hf. exists (applyActivity now activityType value f).
  split.
  { unfold updateCurrentFightStats. rewrite Hc, Hf. simpl.
    apply lookup_insert_eq. }
  unfold applyActivity. simpl.
  repeat split; intros; repeat case_decide; simplify_eq; lia.
Qed.

Lemma nonnegative_activity_monotone_witness :
  let m := recordActivityCall 0 1000 "damage" 0 (newManager 0) in
  ∃ f', fights (updateCurrentFightStats 1500 "damage" 40 m) !! "fight_1000"
        = Some f'
        ∧ 0 ≤ totalDamage f' ∧ 0 ≤ totalHealing f'.
Proof.
  intros m.
  destruct (nonnegative_activity_monotone m 1500 40 "damage" "fight_1000"
              (freshFight 1000))
    as (f' & Hl & _ & _ & Hmono).
  - vm_compute; reflexivity.
  - vm_compute; reflexivity.
  - exists f'. split; [exact Hl|]. apply Hmono. lia.
Defined.

(** C9 as stated fails: a damage of [-4] takes the total of the current
    encounter from 10 down to 6. *)
Lemma negative_activity_decreases_total :
  let m := recordActivityCall 1 1001 "damage" 10
             (recordActivityCall 0 1000 "damage" 0 (newManager 0)) in
  ∃ f f', getCurrentFight m = Some f
    ∧ getCurrentFight (updateCurrentFightStats 2 "damage" (-4) m) = Some f'
    ∧ totalDamage f = 10
    ∧ totalDamage f' = 6
    ∧ totalDamage f' < totalDamage f.
Proof.
  eexists _, _. split; [vm_compute; reflexivity|].
  split; [vm_compute; reflexivity|]. simpl. repeat split; lia.
Qed.

(** ** The timeout *)

(** C7, as the code has it: the manager's [updateFightTimeout] stores any
    value; the bound 5000..60000 is enforced by the [/fight/timeout]
    endpoint, which answers 400 and leaves the manager as it is when the
    value is not a number or is out of the bound, and stores it otherwise.
    Requests with 3000 and then 100000 are both refused. *)
Theorem timeout_update_policy (m : Manager) :
  (∀ ms, fightTimeout (updateFightTimeout ms m) = ms)
  ∧ (∀ ms, ms < 5000 ∨ ms > 60000 →
       postFightTimeout (JsNumber ms) m = (mkResponse 400 1, m))
  ∧ (∀ ms, 5000 ≤ ms ≤ 60000 →
       postFightTimeout (JsNumber ms) m
       = (mkResponse 200 0, updateFightTimeout ms m))
  ∧ (∀ v, (∀ ms, v ≠ JsNumber ms) →
       postFightTimeout v m = (mkResponse 400 1, m))
  ∧ (let r1 := postFightTimeout (JsNumber 3000) m in
     let r2 := postFightTimeout (JsNumber 100000) r1.2 in
     r1.1 = mkResponse 400 1 ∧ r2 = (mkResponse 400 1, m)).
Proof.
  split; [done|]. split; [|split; [|split]].
  - intros ms Hms. unfold postFightTimeout.
    destruct Hms.
    + by rewrite (bool_decide_eq_true_2 (ms < 5000)) by lia.
    + rewrite (bool_decide_eq_true_2 (ms > 60000)) by lia.
      by rewrite orb_true_r.
  - intros ms Hms. unfold postFightTimeout.
    rewrite (bool_decide_eq_false_2 (ms < 5000)) by lia.
    by rewrite (bool_decide_eq_false_2 (ms > 60000)) by lia.
  - intros v Hv. destruct v; try done. by destruct (Hv n).
  - done.
Qed.

Lemma timeout_update_policy_witness :
  postFightTimeout (JsNumber 4999) (newManager 0)
  = (mkResponse 400 1, newManager 0)
  ∧ fightTimeout (postFightTimeout (JsNumber 30000) (newManager 0)).2 = 30000
  ∧ postFightTimeout (JsString "30000") (newManager 0)
    = (mkResponse 400 1, newManager 0).
Proof.
  destruct (timeout_update_policy (newManager 0)) as (_ & Hlo & Hin & Hv & _).
  split; [|split].
  - apply Hlo. left. lia.
  - rewrite (Hin 30000) by lia. reflexivity.
  - apply Hv. intros ms. discriminate.
Defined.

(** C7 as stated fails: after [updateFightTimeout(3000)] and
    [updateFightTimeout(100000)] the timeout is 100000, and through the
    endpoint it is still the default 15000; in neither case is it 3000. *)
Lemma timeout_scenario_not_3000 :
  fightTimeout (updateFightTimeout 3000 (newManager 0)) = 3000
  ∧ fightTimeout (updateFightTimeout 100000
                    (updateFightTimeout 3000 (newManager 0))) = 100000
  ∧ fightTimeout (postFightTimeout (JsNumber 100000)
                    (postFightTimeout (JsNumber 3000) (newManager 0)).2).2
    = 15000.
Proof. repeat split. Qed.

(** ** The scenario of three activities *)

(** C3, as the code has it: the first activity creates [fight_0]; the second
    stays in it; the third, 15001 ms after the second, has [fight_0]
    finalized and [fight_20001] created and made current.  The counter of
    finalized fights is then 1, the cumulative damage is the damage of
    [fight_0], and [getCumulativeStats] reports the size of the store, 2, as
    [totalFights]. *)
Theorem scenario_three_activities (n0 n1 n2 n3 : Z) :
  let m1 := recordActivityCall n1 0 "damage" 100 (newManager n0) in
  let m2 := recordActivityCall n2 5000 "damage" 50 m1 in
  let m3 := recordActivityCall n3 20001 "healing" 30 m2 in
  (currentFightId m1 = Some "fight_0"
   ∧ ∃ f, fights m1 !! "fight_0" = Some f
       ∧ isActive f = true ∧ startTime f = 0)
  ∧ (currentFightId m2 = Some "fight_0" ∧ size (fights m2) = 1%nat
     ∧ pendingStarts m2 = [])
  ∧ (currentFightId m3 = Some "fight_20001"
     ∧ ∃ f0 f1, fights m3 !! "fight_0" = Some f0
         ∧ fights m3 !! "fight_20001" = Some f1
         ∧ isActive f0 = false ∧ endTime f0 = Some n3
         ∧ isActive f1 = true ∧ startTime f1 = 20001
         ∧ getCurrentFight m3 = Some f1
         ∧ cumFights (cumulativeStats m3) = 1
         ∧ viewDamage (getCumulativeStats m3) = totalDamage f0
         ∧ viewFights (getCumulativeStats m3) = 2).
Proof.
  intros m1 m2 m3. split; [|split].
  - split; [vm_compute; reflexivity|].
    eexists. split; [vm_compute; reflexivity|]. done.
  - repeat split; vm_compute; reflexivity.
  - split; [vm_compute; reflexivity|].
    eexists _, _. split; [vm_compute; reflexivity|].
    split; [vm_compute; reflexivity|].
    repeat split; vm_compute; reflexivity.
Qed.

(** C3 as stated fails: with the clock equal to the timestamps, [fight_0]
    ends with a damage of 50, the new [fight_20001] has no healing, and
    [getCumulativeStats] reports 2 fights and a damage of 50. *)
Lemma scenario_reported_totals :
  let m := scenario 0 0 5000 20001 in
  totalDamage <$> fights m !! "fight_0" = Some 50
  ∧ totalHealing <$> getCurrentFight m = Some 0
  ∧ viewFights (getCumulativeStats m) = 2
  ∧ viewDamage (getCumulativeStats m) = 50
  ∧ viewFights (getCumulativeStats m) ≠ 1
  ∧ viewDamage (getCumulativeStats m) ≠ 150.
Proof. repeat split; vm_compute; congruence. Qed.

(** ** Finalization *)

Lemma finalizeCurrentFight_fold (now : Z) (m : Manager) (c : string) (f : Fight) :
  currentFightId m = Some c →
  fights m !! c = Some f →
  finalizeCurrentFight now m
  = withCumulative (foldFight (closeFight now f) (cumulativeStats m))
      (withFights (<[c := closeFight now f]> (fights m)) m).
Proof. intros Hc Hf. unfold finalizeCurrentFight. by rewrite Hc, Hf. Qed.

Lemma checkForInactivity_no_current (now t : Z) (m : Manager) :
  currentFightId m = None → checkForInactivity now t m = m.
Proof. intros H. unfold checkForInactivity. by rewrite H. Qed.

(** C4, as the code has it: [finalizeCurrentFight] does not look at
    [isActive]; every invocation made while the current pointer names an
    encounter of the store folds it into the cumulative counters.  The
    watchdog clears the pointer when it finalizes, so that a second
    [checkForInactivity] leaves the manager, and the counters, as the first
    one left them. *)
Theorem finalize_once_by_pointer (m : Manager) (c : string) (f : Fight)
    (now now' t t' : Z) :
  currentFightId m = Some c →
  fights m !! c = Some f →
  (cumulativeStats (finalizeCurrentFight now m)
   = foldFight (closeFight now f) (cumulativeStats m)
   ∧ cumFights (cumulativeStats
                  (finalizeCurrentFight now' (finalizeCurrentFight now m)))
     = cumFights (cumulativeStats m) + 2)
  ∧ (lastActivityTime m > 0 → t - lastActivityTime m > fightTimeout m →
     let m' := checkForInactivity now t m in
     cumulativeStats m' = foldFight (closeFight now f) (cumulativeStats m)
     ∧ currentFightId m' = None
     ∧ checkForInactivity now' t' m' = m').
Proof.
  intros Hc Hf. split.
  - rewrite (finalizeCurrentFight_fold now m c f) by done.
    split; [done|].
    erewrite finalizeCurrentFight_fold;
      [|exact Hc|simpl; apply lookup_insert_eq].
    simpl. lia.
  - intros HT Hgap m'.
    assert (Hm' : m' = withCurrent None None (finalizeCurrentFight now m)).
    { unfold m', checkForInactivity. rewrite Hc.
      by rewrite !bool_decide_eq_true_2 by lia. }
    rewrite Hm'. rewrite (finalizeCurrentFight_fold now m c f) by done.
    repeat split.
Qed.

Lemma finalize_once_by_pointer_witness :
  let m := recordActivityCall 1 1001 "damage" 10
             (recordActivityCall 0 1000 "damage" 0 (newManager 0)) in
  let m' := checkForInactivity 20000 20000 m in
  cumFights (cumulativeStats m') = 1
  ∧ checkForInactivity 40000 40000 m' = m'.
Proof.
  intros m m'.
  destruct (finalize_once_by_pointer m "fight_1000"
              (mkFight "fight_1000" 1000 (Some 1) (-999) 10 0 StatsMap true)
              20000 40000 20000 40000) as [_ H].
  - vm_compute; reflexivity.
  - vm_compute; reflexivity.
  - destruct H as (Hcum & _ & Hidem).
    + vm_compute; reflexivity.
    + vm_compute; reflexivity.
    + split; [|exact Hidem].
      exact (eq_trans (f_equal cumFights Hcum) eq_refl).
Defined.

(** C4 as stated fails: a second [finalizeCurrentFight] on the encounter
    that the first one has made inactive folds it again. *)
Lemma finalize_twice_folds_twice :
  let m := recordActivityCall 1 1001 "damage" 10
             (recordActivityCall 0 1000 "damage" 0 (newManager 0)) in
  let m1 := finalizeCurrentFight 2000 m in
  let m2 := finalizeCurrentFight 2000 m1 in
  isActive <$> getCurrentFight m1 = Some false
  ∧ id <$> getCurrentFight m2 = id <$> getCurrentFight m1
  ∧ cumulativeStats m = mkCumulative 0 0 0 0 (Some 0)
  ∧ cumulativeStats m1 = mkCumulative 10 0 1 1000 (Some 0)
  ∧ cumulativeStats m2 = mkCumulative 20 0 2 2000 (Some 0).
Proof. repeat split; vm_compute; reflexivity. Qed.

(** ** Persistence *)

Lemma fightOfJson_toJson (f : Fight) :
  sameEncounter f (fightOfJson (fightToJson f)).
Proof. by repeat split. Qed.

(** C8: loading what [saveFightHistory] wrote for a manager gives back its
    encounters, under the same ids and field for field, and its cumulative
    counters. *)
Theorem save_load_round_trip (S m0 : Manager) (now : Z) :
  let m := loadFightHistory (Some (saveFightHistory now S)) m0 in
  cumulativeStats m = cumulativeStats S
  ∧ dom (fights m) = dom (fights S)
  ∧ size (fights m) = size (fights S)
  ∧ ∀ k, option_Forall2 sameEncounter (fights S !! k) (fights m !! k).
Proof.
  simpl. split; [done|]. split; [|split].
  - by rewrite !dom_fmap_L.
  - by rewrite !map_size_fmap.
  - intros k. rewrite !lookup_fmap.
    destruct (fights S !! k) as [f|]; simpl; constructor.
    apply fightOfJson_toJson.
Qed.

Lemma loadFightHistory_lookup (h : HistoryData) (m : Manager)
    (js : gmap string FightJson) (k : string) :
  hFights h = Some js →
  fights (loadFightHistory (Some h) m) !! k = fightOfJson <$> js !! k.
Proof. intros Hjs. simpl. rewrite Hjs. simpl. apply lookup_fmap. Qed.

Lemma recordActivity_no_current_fights (now ts : Z) (ty : string) (v : Z)
    (m : Manager) :
  currentFightId m = None →
  recordActivity now ts ty v m
  = withLastActivity ts (startNewFight ts m).
Proof.
  intros Hc. unfold recordActivity.
  rewrite shouldStartNewFight_no_current by done.
  simpl. by rewrite Hc.
Qed.

(** C6, as the code has it: a successful load restores an encounter that
    was saved active still marked active, but not the current pointer.  In a
    manager with no current encounter, as at startup, the watchdog then does
    nothing, and an activity starts a new encounter: the restored one takes
    no value and stays as it was loaded. *)
Theorem restored_active_is_orphan (h : HistoryData) (m : Manager)
    (js : gmap string FightJson) (k : string) (j : FightJson) :
  hFights h = Some js →
  js !! k = Some j →
  jIsActive j = true →
  currentFightId m = None →
  let m' := loadFightHistory (Some h) m in
  fights m' !! k = Some (fightOfJson j)
  ∧ isActive (fightOfJson j) = true
  ∧ currentFightId m' = None
  ∧ (∀ now t, checkForInactivity now t m' = m')
  ∧ (∀ now ts ty v,
       fights (recordActivity now ts ty v m') = fights m'
       ∧ (pendingStarts m = [] → fightId ts ≠ k →
          let m'' := recordActivityCall now ts ty v m' in
          currentFightId m'' = Some (fightId ts)
          ∧ fights m'' !! k = Some (fightOfJson j)
          ∧ ∀ now' t, fights (checkForInactivity now' t m'') !! k
                      = Some (fightOfJson j))).
Proof.
  intros Hjs Hk Hact Hcur m'.
  assert (Hl : fights m' !! k = Some (fightOfJson j)).
  { unfold m'. rewrite (loadFightHistory_lookup h m js) by done.
    by rewrite Hk. }
  assert (Hc' : currentFightId m' = None) by done.
  split; [done|]. split; [done|]. split; [done|]. split.
  { intros now t. by apply checkForInactivity_no_current. }
  intros now ts ty v.
  rewrite (recordActivity_no_current_fights now ts ty v m') by done.
  split; [done|]. intros Hq Hne m''.
  assert (Hm'' : m'' = startNewFightBody now ts
                         (withPending [] (withLastActivity ts m'))).
  { unfold m'', recordActivityCall.
    rewrite recordActivity_no_current_fights by done.
    unfold settle. simpl. by rewrite Hq. }
  assert (Hl'' : fights m'' !! k = Some (fightOfJson j)).
  { rewrite Hm''. unfold startNewFightBody. simpl. rewrite Hcur. simpl.
    rewrite lookup_insert_ne by done. exact Hl. }
  assert (Hc'' : currentFightId m'' = Some (fightId ts)) by by rewrite Hm''.
  split; [done|]. split; [done|].
  intros now' t. unfold checkForInactivity. rewrite Hc''.
  destruct (_ && _); [|done]. simpl.
  unfold finalizeCurrentFight. rewrite Hc''.
  destruct (fights m'' !! fightId ts); [|done].
  simpl. by rewrite lookup_insert_ne.
Qed.

Lemma restored_active_is_orphan_witness :
  fights restartedManager !! "fight_100" = Some (fightOfJson crashedFight)
  ∧ checkForInactivity 99000 99000 restartedManager = restartedManager
  ∧ fights (recordActivityCall 2000 2000 "damage" 5 restartedManager)
      !! "fight_100" = Some (fightOfJson crashedFight).
Proof.
  destruct (restored_active_is_orphan crashedHistory (newManager 1000)
              {[ "fight_100" := crashedFight ]} "fight_100" crashedFight)
    as (Hl & _ & _ & Hchk & Hrec); try (vm_compute; reflexivity).
  split; [exact Hl|]. split; [apply Hchk|].
  destruct (Hrec 2000 2000 "damage" 5) as [_ H].
  destruct H as (_ & H & _); [reflexivity | vm_compute; discriminate | exact H].
Defined.

(** C6 as stated fails: the encounter restored as active takes none of the
    activity recorded after the restart, and no watchdog tick finalizes it. *)
Lemma restored_active_not_eligible :
  isActive <$> fights restartedManager !! "fight_100" = Some true
  ∧ totalDamage <$> fights restartedManager !! "fight_100" = Some 7
  ∧ (let m := recordActivityCall 2001 2001 "damage" 5
                (recordActivityCall 2000 2000 "damage" 5 restartedManager) in
     totalDamage <$> fights m !! "fight_100" = Some 7
     ∧ currentFightId m = Some "fight_2000"
     ∧ isActive <$> fights (checkForInactivity 99000 99000 m) !! "fight_100"
       = Some true)
  ∧ ¬ (∃ now t,
         isActive <$> fights (checkForInactivity now t restartedManager)
                        !! "fight_100" = Some false).
Proof.
  split; [vm_compute; reflexivity|]. split; [vm_compute; reflexivity|].
  split; [repeat split; vm_compute; reflexivity|].
  intros (now & t & H).
  rewrite checkForInactivity_no_current in H by reflexivity.
  vm_compute in H. discriminate.
Qed.

(** ** The single active encounter *)

Section SingleActive.

Implicit Types (m : Manager) (fs : gmap string Fight).

Lemma activeIsCurrent_singleActive m :
  activeIsCurrent m → singleActive (fights m).
Proof.
  intros Hm k1 k2 f1 f2 H1 H2 A1 A2.
  pose proof (Hm k1 f1 H1 A1) as E1.
  pose proof (Hm k2 f2 H2 A2) as E2.
  congruence.
Qed.

Lemma noActive_activeIsCurrent m : noActive (fights m) → activeIsCurrent m.
Proof.
  intros Hm k f Hk A. specialize (Hm k f Hk). simpl in Hm. congruence.
Qed.

(** Once the current fight is finalized, nothing is active. *)
Lemma finalizeCurrentFight_noActive now m :
  activeIsCurrent m → noActive (fights (finalizeCurrentFight now m)).
Proof.
  intros Hm. unfold finalizeCurrentFight.
  destruct (currentFightId m) as [c|] eqn:Hc.
  - destruct (fights m !! c) as [f|] eqn:Hf; simpl.
    + intros k g Hk.
      destruct (decide (c = k)) as [->|Hne].
      * rewrite lookup_insert_eq in Hk. by simplify_eq.
      * rewrite lookup_insert_ne in Hk by done.
        destruct (isActive g) eqn:A; [|done].
        specialize (Hm k g Hk A). congruence.
    + intros k g Hk. destruct (isActive g) eqn:A; [|done].
      specialize (Hm k g Hk A). congruence.
  - intros k g Hk. destruct (isActive g) eqn:A; [|done].
    specialize (Hm k g Hk A). congruence.
Qed.

Lemma insert_current_activeIsCurrent m c f' :
  activeIsCurrent m → currentFightId m = Some c →
  activeIsCurrent (withFights (<[c := f']> (fights m)) m).
Proof.
  intros Hm Hc k g Hk A. simpl in *.
  destruct (decide (c = k)) as [->|Hne]; [done|].
  rewrite lookup_insert_ne in Hk by done. by apply (Hm k g).
Qed.

Lemma updateCurrentFightStats_activeIsCurrent now ty v m :
  activeIsCurrent m → activeIsCurrent (updateCurrentFightStats now ty v m).
Proof.
  intros Hm. unfold updateCurrentFightStats.
  destruct (currentFightId m) as [c|] eqn:Hc; [|done].
  destruct (fights m !! c) as [f|] eqn:Hf; [|done].
  by apply insert_current_activeIsCurrent.
Qed.

Lemma startNewFightBody_activeIsCurrent now ts m :
  activeIsCurrent m → activeIsCurrent (startNewFightBody now ts m).
Proof.
  intros Hm. unfold startNewFightBody.
  set (m1 := match currentFightId m with
             | Some _ => finalizeCurrentFight now m
             | None => m
             end).
  assert (H1 : noActive (fights m1)).
  { unfold m1. destruct (currentFightId m) eqn:Hc.
    - by apply finalizeCurrentFight_noActive.
    - intros k g Hk. destruct (isActive g) eqn:A; [|done].
      specialize (Hm k g Hk A). congruence. }
  intros k g Hk A. simpl in *.
  destruct (decide (fightId ts = k)) as [->|Hne]; [done|].
  rewrite lookup_insert_ne in Hk by done.
  specialize (H1 k g Hk). simpl in H1. congruence.
Qed.

Lemma recordActivity_activeIsCurrent now ts ty v m :
  activeIsCurrent m → activeIsCurrent (recordActivity now ts ty v m).
Proof.
  intros Hm. unfold recordActivity.
  set (m2 := withLastActivity ts _).
  assert (H2 : activeIsCurrent m2).
  { unfold m2. by destruct (shouldStartNewFight m ts). }
  destruct (currentFightId m2); [|done].
  by apply updateCurrentFightStats_activeIsCurrent.
Qed.

Lemma checkForInactivity_activeIsCurrent now t m :
  activeIsCurrent m → activeIsCurrent (checkForInactivity now t m).
Proof.
  intros Hm. unfold checkForInactivity.
  destruct (currentFightId m); [|done].
  destruct (_ && _); [|done].
  apply noActive_activeIsCurrent. simpl.
  by apply finalizeCurrentFight_noActive.
Qed.

Lemma saveUserDataSnapshot_activeIsCurrent users m :
  activeIsCurrent m → activeIsCurrent (saveUserDataSnapshot users m).
Proof.
  intros Hm. unfold saveUserDataSnapshot.
  destruct (currentFightId m) as [c|] eqn:Hc; [|done].
  destruct (fights m !! c) as [f|] eqn:Hf; [|done].
  by apply insert_current_activeIsCurrent.
Qed.

Lemma step_activeIsCurrent e m :
  activeIsCurrent m → activeIsCurrent (step e m).
Proof.
  intros Hm. destruct e; simpl.
  - by apply recordActivity_activeIsCurrent.
  - unfold resumeStartNewFight. destruct (pendingStarts m); [done|].
    by apply startNewFightBody_activeIsCurrent.
  - by apply checkForInactivity_activeIsCurrent.
  - done.
  - apply map_Forall_empty.
  - done.
  - by apply saveUserDataSnapshot_activeIsCurrent.
Qed.

Lemma run_activeIsCurrent evs m :
  activeIsCurrent m → activeIsCurrent (run evs m).
Proof.
  revert m. induction evs as [|e evs IH]; intros m Hm; [done|].
  simpl. apply IH. by apply step_activeIsCurrent.
Qed.

Lemma newManager_activeIsCurrent now : activeIsCurrent (newManager now).
Proof. apply map_Forall_empty. Qed.

End SingleActive.

(** C1, as the code has it: in every run that starts from a manager whose
    active encounters are all the current one (a new manager, or one that has
    loaded a file without an active encounter), at most one encounter of the
    store is active after every step: after each [recordActivity] and
    [checkForInactivity], each resumption of a queued [startNewFight], and
    each of the other operations. *)
Theorem single_active_invariant (m : Manager) (evs : list Event) :
  activeIsCurrent m → singleActive (fights (run evs m)).
Proof.
  intros Hm. apply activeIsCurrent_singleActive. by apply run_activeIsCurrent.
Qed.

Lemma single_active_invariant_witness :
  singleActive
    (fights (run [RecordActivity 0 0 "damage" 100; ResumeStartNewFight 0;
                  RecordActivity 5000 5000 "damage" 50;
                  RecordActivity 20001 20001 "healing" 30;
                  ResumeStartNewFight 20001;
                  CheckForInactivity 40000 40000]
               (newManager 0))).
Proof.
  apply (single_active_invariant (newManager 0)).
  apply (bool_decide_unpack _). vm_compute. exact I.
Defined.

(** C1 as stated fails: in a new process that has loaded a file with an
    encounter saved active, the first activity creates a second active
    encounter. *)
Lemma two_active_after_restart :
  let m := run [RecordActivity 2000 2000 "damage" 5; ResumeStartNewFight 2000]
             restartedManager in
  isActive <$> fights m !! "fight_100" = Some true
  ∧ isActive <$> fights m !! "fight_2000" = Some true
  ∧ size (activeFights (fights m)) = 2%nat
  ∧ ¬ singleActive (fights m).
Proof.
  split; [vm_compute; reflexivity|]. split; [vm_compute; reflexivity|].
  split; [vm_compute; reflexivity|].
  intros H.
  specialize (H "fight_100" "fight_2000" (fightOfJson crashedFight)
                (freshFight 2000)).
  discriminate H; vm_compute; reflexivity.
Qed.

(** ** The counter of finalized encounters *)

Section FightsCounted.

Implicit Types (m : Manager) (fs : gmap string Fight).

(** Storing an active fight under a key that held no finalized fight
    leaves the finalized fights as they are. *)
Lemma finalizedFights_insert_active fs k f' :
  isActive f' = true →
  (∀ f, fs !! k = Some f → isActive f = true) →
  finalizedFights (<[k := f']> fs) = finalizedFights fs.
Proof.
  intros A Hk. unfold finalizedFights.
  rewrite map_filter_insert_False by (simpl; congruence).
  rewrite map_filter_delete. apply delete_id.
  apply map_lookup_filter_None. right. intros f Hf. simpl.
  rewrite (Hk f Hf). done.
Qed.

(** Closing an active fight adds one finalized fight. *)
Lemma finalizedFights_insert_closed fs k f f' :
  fs !! k = Some f → isActive f = true → isActive f' = false →
  size (finalizedFights (<[k := f']> fs)) = S (size (finalizedFights fs)).
Proof.
  intros Hk A A'. unfold finalizedFights.
  rewrite map_filter_insert_True by done.
  apply map_size_insert_None.
  apply map_lookup_filter_None. right. intros g Hg. simpl. congruence.
Qed.

Lemma finalizeCurrentFight_consistent now m :
  consistent m →
  fightsCounted (finalizeCurrentFight now m)
  ∧ noActive (fights (finalizeCurrentFight now m))
  ∧ dom (fights (finalizeCurrentFight now m)) = dom (fights m).
Proof.
  intros (Hn & Ha & Hc). split; [|split].
  - unfold finalizeCurrentFight.
    destruct (currentFightId m) as [c|] eqn:Ec; [|done].
    destruct (fights m !! c) as [f|] eqn:Ef; [|done].
    unfold fightsCounted in *. simpl.
    rewrite (finalizedFights_insert_closed _ c f);
      [|done|by apply (Hc c f)|done].
    rewrite Hn. lia.
  - by apply finalizeCurrentFight_noActive.
  - unfold finalizeCurrentFight.
    destruct (currentFightId m) as [c|] eqn:Ec; [|done].
    destruct (fights m !! c) as [f|] eqn:Ef; [|done].
    simpl. apply dom_insert_lookup_L. by rewrite Ef.
Qed.

(** Replacing the current fight by one that is active keeps consistency. *)
Lemma insert_current_consistent m c f f' :
  consistent m → currentFightId m = Some c → fights m !! c = Some f →
  isActive f' = true →
  consistent (withFights (<[c := f']> (fights m)) m).
Proof.
  intros (Hn & Ha & Hc) Ec Ef A'. split; [|split].
  - unfold fightsCounted in *. simpl.
    rewrite finalizedFights_insert_active; [done..|].
    intros g Hg. apply (Hc c g Hg Ec).
  - by apply insert_current_activeIsCurrent.
  - intros k g Hk Ek. simpl in *. simplify_eq.
    rewrite lookup_insert_eq in Hk. by simplify_eq.
Qed.

Lemma updateCurrentFightStats_consistent now ty v m :
  consistent m → consistent (updateCurrentFightStats now ty v m).
Proof.
  intros Hm. unfold updateCurrentFightStats.
  destruct (currentFightId m) as [c|] eqn:Ec; [|done].
  destruct (fights m !! c) as [f|] eqn:Ef; [|done].
  apply (insert_current_consistent m c f); try done.
  simpl. destruct Hm as (_ & _ & Hc). by apply (Hc c f).
Qed.

Lemma saveUserDataSnapshot_consistent users m :
  consistent m → consistent (saveUserDataSnapshot users m).
Proof.
  intros Hm. unfold saveUserDataSnapshot.
  destruct (currentFightId m) as [c|] eqn:Ec; [|done].
  destruct (fights m !! c) as [f|] eqn:Ef; [|done].
  apply (insert_current_consistent m c f); try done.
  simpl. destruct Hm as (_ & _ & Hc). by apply (Hc c f).
Qed.

Lemma consistent_frame m m' :
  fights m' = fights m → currentFightId m' = currentFightId m →
  cumulativeStats m' = cumulativeStats m →
  consistent m → consistent m'.
Proof.
  unfold consistent, fightsCounted, activeIsCurrent, currentIsActive.
  intros -> -> ->. done.
Qed.

Lemma recordActivity_consistent now ts ty v m :
  consistent m → consistent (recordActivity now ts ty v m).
Proof.
  intros Hm. unfold recordActivity.
  set (m2 := withLastActivity ts _).
  assert (H2 : consistent m2).
  { apply (consistent_frame m); [| | |done];
      unfold m2; by destruct (shouldStartNewFight m ts). }
  destruct (currentFightId m2); [|done].
  by apply updateCurrentFightStats_consistent.
Qed.

Lemma checkForInactivity_consistent now t m :
  consistent m → consistent (checkForInactivity now t m).
Proof.
  intros Hm. unfold checkForInactivity.
  destruct (currentFightId m); [|done].
  destruct (_ && _); [|done].
  destruct (finalizeCurrentFight_consistent now m Hm) as (Hn & Hna & _).
  split; [done|]. split.
  - by apply noActive_activeIsCurrent.
  - intros k g Hk Ek. done.
Qed.

Lemma startNewFightBody_consistent now ts m :
  consistent m → fights m !! fightId ts = None →
  consistent (startNewFightBody now ts m).
Proof.
  intros Hm Hfresh. unfold startNewFightBody.
  set (m1 := match currentFightId m with
             | Some _ => finalizeCurrentFight now m
             | None => m
             end).
  assert (H1 : fightsCounted m1 ∧ dom (fights m1) = dom (fights m)).
  { unfold m1. destruct (currentFightId m).
    - destruct (finalizeCurrentFight_consistent now m Hm) as (?&_&?). done.
    - by destruct Hm. }
  destruct H1 as (Hn1 & Hd1).
  assert (Hfresh1 : fights m1 !! fightId ts = None).
  { apply not_elem_of_dom. rewrite Hd1. by apply not_elem_of_dom. }
  split; [|split].
  - unfold fightsCounted in *. simpl.
    rewrite finalizedFights_insert_active; [done..|].
    intros f Hf. congruence.
  - apply startNewFightBody_activeIsCurrent. by destruct Hm as (_&?&_).
  - intros k g Hk Ek. simpl in *. simplify_eq.
    rewrite lookup_insert_eq in Hk. by simplify_eq.
Qed.

Lemma clearHistory_consistent now m : consistent (clearHistory now m).
Proof.
  split; [|split]; [|apply map_Forall_empty..].
  unfold fightsCounted. simpl. unfold finalizedFights.
  by rewrite map_filter_empty, map_size_empty.
Qed.

Lemma step_consistent e m :
  consistent m → freshStart e m → consistent (step e m).
Proof.
  intros Hm Hfresh. destruct e; simpl in *.
  - by apply recordActivity_consistent.
  - unfold resumeStartNewFight.
    destruct (pendingStarts m) as [|ts q]; [done|].
    apply startNewFightBody_consistent; [|done].
    by apply (consistent_frame m).
  - by apply checkForInactivity_consistent.
  - by apply (consistent_frame m).
  - apply clearHistory_consistent.
  - by apply (consistent_frame m).
  - by apply saveUserDataSnapshot_consistent.
Qed.

Lemma run_consistent evs m :
  consistent m → freshRun evs m → consistent (run evs m).
Proof.
  revert m. induction evs as [|e evs IH]; intros m Hm Hf; [done|].
  destruct Hf as [Hf1 Hf2]. simpl. apply IH; [|done].
  by apply step_consistent.
Qed.

Lemma newManager_consistent now : consistent (newManager now).
Proof.
  split; [|split]; [|apply map_Forall_empty..].
  unfold fightsCounted. simpl. unfold finalizedFights.
  by rewrite map_filter_empty, map_size_empty.
Qed.

End FightsCounted.

(** C5, as the code has it: from a consistent manager, [totalFights] of the
    cumulative counters equals the number of finalized encounters of the
    store after every step of a run of [recordActivity],
    [checkForInactivity], [forceStartNewFight], [clearHistory] and the
    other operations, as long as no encounter is created under an id that the
    store already holds. *)
Theorem cumulative_consistency (m : Manager) (evs : list Event) :
  consistent m →
  freshRun evs m →
  cumFights (cumulativeStats (run evs m))
  = Z.of_nat (size (finalizedFights (fights (run evs m)))).
Proof.
  intros Hm Hf. by destruct (run_consistent evs m Hm Hf) as [H _].
Qed.

Lemma cumulative_consistency_witness :
  let m := run [RecordActivity 0 0 "damage" 100; ResumeStartNewFight 0;
                RecordActivity 5000 5000 "damage" 50;
                RecordActivity 20001 20001 "healing" 30;
                ResumeStartNewFight 20001;
                CheckForInactivity 40000 40000;
                ForceStartNewFight 50000; ResumeStartNewFight 50000]
             (newManager 0) in
  cumFights (cumulativeStats m) = 2
  ∧ size (finalizedFights (fights m)) = 2%nat.
Proof.
  intros m.
  assert (H : cumFights (cumulativeStats m)
              = Z.of_nat (size (finalizedFights (fights m)))).
  { apply (cumulative_consistency (newManager 0)).
    - apply (bool_decide_unpack _). vm_compute. exact I.
    - repeat split; vm_compute; reflexivity. }
  split; [rewrite H|]; vm_compute; reflexivity.
Defined.

(** C5 as stated fails.  An activity stamped like the encounter that the
    watchdog has just finalized creates the new encounter under the same id:
    the finalized one is gone from the store and still counted.  Likewise,
    two activities of the same millisecond recorded before the first queued
    [startNewFight] resumes: the second resumption finalizes the fight that
    the first one created and overwrites it. *)
Lemma totalFights_counts_overwritten_fight :
  let m := run [RecordActivity 100000 100000 "damage" 5;
                ResumeStartNewFight 100000;
                CheckForInactivity 200000 200000;
                RecordActivity 200001 100000 "damage" 5;
                ResumeStartNewFight 200001]
             (newManager 0) in
  let m' := run [RecordActivity 1000 1000 "damage" 5;
                 RecordActivity 1000 1000 "damage" 7;
                 ResumeStartNewFight 1000;
                 ResumeStartNewFight 1000]
              (newManager 0) in
  (cumFights (cumulativeStats m) = 1
   ∧ size (finalizedFights (fights m)) = 0%nat
   ∧ ¬ fightsCounted m)
  ∧ (cumFights (cumulativeStats m') = 1
     ∧ size (finalizedFights (fights m')) = 0%nat
     ∧ ¬ fightsCounted m').
Proof.
  split.
  - split; [vm_compute; reflexivity|]. split; [vm_compute; reflexivity|].
    unfold fightsCounted. vm_compute. discriminate.
  - split; [vm_compute; reflexivity|]. split; [vm_compute; reflexivity|].
    unfold fightsCounted. vm_compute. discriminate.
Qed.


(** * Further properties of the manager *)

(** ** The list of completed fights *)

Global Instance newestFirst_total : Total newestFirst.
Proof. intros a b. unfold newestFirst. lia. Qed.

Global Instance newestFirst_trans : Transitive newestFirst.
Proof. intros a b c. unfold newestFirst. lia. Qed.

Lemma elem_of_finalized_values (fs : gmap string Fight) (f : Fight) :
  f ∈ (map_to_list (finalizedFights fs)).*2
  ↔ ∃ k, fs !! k = Some f ∧ isActive f = false.
Proof.
  rewrite list_elem_of_fmap. split.
  - intros ([k g] & -> & Hin). apply elem_of_map_to_list in Hin.
    apply map_lookup_filter_Some in Hin as [Hk Ha]. by exists k.
  - intros (k & Hk & Ha). exists (k, f). split; [done|].
    apply elem_of_map_to_list. by apply map_lookup_filter_Some.
Qed.

Lemma getAllFights_length (m : Manager) :
  length (getAllFights m) = size (finalizedFights (fights m)).
Proof.
  unfold getAllFights. rewrite merge_sort_Permutation, !length_fmap.
  apply length_map_to_list.
Qed.

(** [getAllFights] returns exactly the fights of the store that are not
    active, one summary for each, the most recent start first. *)
Theorem getAllFights_spec (m : Manager) :
  StronglySorted newestFirst (getAllFights m)
  ∧ length (getAllFights m) = size (finalizedFights (fights m))
  ∧ (∀ s, s ∈ getAllFights m
       ↔ ∃ k f, fights m !! k = Some f ∧ isActive f = false
                ∧ s = fightSummary f).
Proof.
  unfold getAllFights. split; [|split].
  - apply StronglySorted_merge_sort; apply _.
  - apply (getAllFights_length m).
  - intros s. rewrite merge_sort_Permutation, list_elem_of_fmap. split.
    + intros (f & -> & Hf). apply elem_of_finalized_values in Hf as (k & ? & ?).
      by exists k, f.
    + intros (k & f & Hk & Ha & ->). exists f. split; [done|].
      apply elem_of_finalized_values. by exists k.
Qed.

(** In a run that creates no fight under an id already in the store, the
    list of completed fights has as many entries as the counter of the
    cumulative statistics says. *)
Theorem getAllFights_length_counter (m : Manager) (evs : list Event) :
  consistent m →
  freshRun evs m →
  Z.of_nat (length (getAllFights (run evs m)))
  = cumFights (cumulativeStats (run evs m)).
Proof.
  intros Hm Hf. rewrite getAllFights_length.
  by destruct (run_consistent evs m Hm Hf) as [-> _].
Qed.

Lemma getAllFights_length_counter_witness :
  let m := run [RecordActivity 0 1000 "damage" 100; ResumeStartNewFight 0;
                RecordActivity 5 1005 "damage" 50;
                CheckForInactivity 40000 40000;
                RecordActivity 50000 50000 "healing" 30;
                ResumeStartNewFight 50000]
             (newManager 0) in
  Z.of_nat (length (getAllFights m)) = cumFights (cumulativeStats m)
  ∧ sumTotalDamage <$> getAllFights m = [50].
Proof.
  intros m. split.
  - apply (getAllFights_length_counter (newManager 0)).
    + apply (bool_decide_unpack _). vm_compute. exact I.
    + repeat split; vm_compute; reflexivity.
  - vm_compute; reflexivity.
Defined.

(** ** The count reported by [getCumulativeStats] *)

Lemma size_finalized_active (fs : gmap string Fight) :
  size fs = (size (finalizedFights fs) + size (activeFights fs))%nat.
Proof.
  unfold finalizedFights, activeFights.
  rewrite <- (map_filter_union_complement (λ kf, isActive kf.2 = false) fs)
    at 1.
  rewrite map_size_disj_union by apply map_disjoint_filter_complement.
  f_equal. f_equal. apply map_filter_ext. intros k f _. simpl.
  destruct (isActive f); naive_solver.
Qed.

Lemma activeFights_current (m : Manager) :
  activeIsCurrent m → currentIsActive m →
  activeFights (fights m)
  = match getCurrentFight m, currentFightId m with
    | Some f, Some c => {[ c := f ]}
    | _, _ => ∅
    end.
Proof.
  intros Ha Hc. unfold getCurrentFight, activeFights.
  destruct (currentFightId m) as [c|] eqn:Ec.
  - destruct (fights m !! c) as [f|] eqn:Ef.
    + apply map_eq. intros k. destruct (decide (k = c)) as [->|Hne].
      * rewrite lookup_singleton_eq. apply map_lookup_filter_Some.
        split; [done|]. by apply (Hc c f).
      * rewrite lookup_singleton_ne by done.
        apply map_lookup_filter_None. right. intros g Hg A. simpl in A.
        specialize (Ha k g Hg A). congruence.
    + apply map_empty. intros k.
      apply map_lookup_filter_None. right. intros g Hg A. simpl in A.
      specialize (Ha k g Hg A). congruence.
  - apply map_empty. intros k.
    apply map_lookup_filter_None. right. intros g Hg A. simpl in A.
    specialize (Ha k g Hg A). congruence.
Qed.

(** [getCumulativeStats] reports the number of fights of the store as
    [totalFights]: in a consistent manager this is the counter of finalized
    fights, plus one while there is a current fight. *)
Theorem getCumulativeStats_counts_current (m : Manager) :
  consistent m →
  viewFights (getCumulativeStats m)
  = cumFights (cumulativeStats m)
    + match getCurrentFight m with Some _ => 1 | None => 0 end.
Proof.
  intros (Hn & Ha & Hc). unfold getCumulativeStats. simpl.
  rewrite size_finalized_active, Nat2Z.inj_add, <- Hn.
  rewrite (activeFights_current m Ha Hc). f_equal.
  unfold getCurrentFight.
  destruct (currentFightId m) as [c|]; [|by rewrite map_size_empty].
  destruct (fights m !! c);
    [by rewrite map_size_singleton | by rewrite map_size_empty].
Qed.

Lemma getCumulativeStats_counts_current_witness :
  viewFights (getCumulativeStats (scenario 0 0 5000 20001)) = 1 + 1.
Proof.
  rewrite (getCumulativeStats_counts_current (scenario 0 0 5000 20001)).
  - vm_compute; reflexivity.
  - apply (bool_decide_unpack _). vm_compute. exact I.
Defined.

(** ** Clearing the history *)

(** After [clearHistory] the list of completed fights is empty, every total
    reported by [getCumulativeStats] is zero, there is no current fight and
    the next activity starts one; the timeout is kept. *)
Theorem clearHistory_resets (now : Z) (m : Manager) :
  let m' := clearHistory now m in
  getAllFights m' = []
  ∧ getCumulativeStats m' = mkView 0 0 0 (Some now) None 0
  ∧ getCurrentFight m' = None
  ∧ fightTimeout m' = fightTimeout m
  ∧ consistent m'
  ∧ ∀ timestamp, shouldStartNewFight m' timestamp = true.
Proof.
  simpl. split.
  { unfold getAllFights, finalizedFights. simpl.
    by rewrite map_filter_empty, map_to_list_empty. }
  split; [done|]. split; [done|]. split; [done|].
  split; [apply clearHistory_consistent|done].
Qed.

(** ** The cumulative totals *)

Section TotalsFolded.

Implicit Types (m : Manager) (fs : gmap string Fight) (g : Fight → Z).

Lemma sumFinalized_insert_active g fs k f' :
  isActive f' = true →
  (∀ f, fs !! k = Some f → isActive f = true) →
  sumFinalized g (<[k := f']> fs) = sumFinalized g fs.
Proof.
  intros A Hk. unfold sumFinalized.
  by rewrite finalizedFights_insert_active.
Qed.

Lemma sumFinalized_insert_closed g fs k f f' :
  fs !! k = Some f → isActive f = true → isActive f' = false →
  sumFinalized g (<[k := f']> fs) = sumFinalized g fs + g f'.
Proof.
  intros Hk A A'. unfold sumFinalized, finalizedFights.
  rewrite map_filter_insert_True by done.
  rewrite map_fold_insert_L; [done| |].
  - intros. lia.
  - apply map_lookup_filter_None. right. intros h Hh. simpl. congruence.
Qed.

Lemma totalsFolded_frame m m' :
  fights m' = fights m → cumulativeStats m' = cumulativeStats m →
  totalsFolded m → totalsFolded m'.
Proof. unfold totalsFolded. intros -> ->. done. Qed.

Lemma insert_current_totalsFolded m c f f' :
  consistent m → totalsFolded m →
  currentFightId m = Some c → fights m !! c = Some f →
  isActive f' = true →
  totalsFolded (withFights (<[c := f']> (fights m)) m).
Proof.
  intros (_ & _ & Hc) Ht Ec Ef A'. unfold totalsFolded in *. simpl.
  rewrite !sumFinalized_insert_active; try done;
    intros h Hh; apply (Hc c h Hh Ec).
Qed.

Lemma finalizeCurrentFight_totalsFolded now m :
  consistent m → totalsFolded m →
  totalsFolded (finalizeCurrentFight now m).
Proof.
  intros (_ & _ & Hc) (Hd & Hh & Hu). unfold finalizeCurrentFight.
  destruct (currentFightId m) as [c|] eqn:Ec; [|done].
  destruct (fights m !! c) as [f|] eqn:Ef; [|done].
  assert (A : isActive f = true) by by apply (Hc c f).
  unfold totalsFolded. simpl.
  rewrite !(sumFinalized_insert_closed _ _ c f) by done.
  simpl. rewrite Hd, Hh, Hu. done.
Qed.

Lemma startNewFightBody_totalsFolded now ts m :
  consistent m → totalsFolded m → fights m !! fightId ts = None →
  totalsFolded (startNewFightBody now ts m).
Proof.
  intros Hm Ht Hfresh. unfold startNewFightBody.
  set (m1 := match currentFightId m with
             | Some _ => finalizeCurrentFight now m
             | None => m
             end).
  assert (H1 : totalsFolded m1 ∧ dom (fights m1) = dom (fights m)).
  { unfold m1. destruct (currentFightId m); [|done]. split.
    - by apply finalizeCurrentFight_totalsFolded.
    - by destruct (finalizeCurrentFight_consistent now m Hm) as (_&_&?). }
  destruct H1 as (Ht1 & Hd1).
  assert (Hfresh1 : fights m1 !! fightId ts = None).
  { apply not_elem_of_dom. rewrite Hd1. by apply not_elem_of_dom. }
  unfold totalsFolded in *. simpl.
  rewrite !sumFinalized_insert_active; try done; intros h Hh; congruence.
Qed.

Lemma step_totalsFolded e m :
  consistent m → totalsFolded m → freshStart e m → totalsFolded (step e m).
Proof.
  intros Hm Ht Hfresh. destruct e; simpl in *.
  - unfold recordActivity.
    set (m2 := withLastActivity timestamp _).
    assert (H2 : consistent m2 ∧ totalsFolded m2).
    { split.
      - apply (consistent_frame m); [| | |done];
          unfold m2; by destruct (shouldStartNewFight m timestamp).
      - apply (totalsFolded_frame m); [| |done];
          unfold m2; by destruct (shouldStartNewFight m timestamp). }
    destruct H2 as [Hm2 Ht2].
    destruct (currentFightId m2) as [c0|] eqn:E0; [|done].
    unfold updateCurrentFightStats. rewrite E0.
    destruct (fights m2 !! c0) as [f|] eqn:Ef; [|done].
    apply (insert_current_totalsFolded m2 c0 f); try done.
    simpl. destruct Hm2 as (_ & _ & Hc). by apply (Hc c0 f).
  - unfold resumeStartNewFight.
    destruct (pendingStarts m) as [|ts q]; [done|].
    apply startNewFightBody_totalsFolded; [| |done].
    + by apply (consistent_frame m).
    + by apply (totalsFolded_frame m).
  - unfold checkForInactivity.
    destruct (currentFightId m); [|done].
    destruct (_ && _); [|done].
    apply (totalsFolded_frame (finalizeCurrentFight now m)); [done..|].
    by apply finalizeCurrentFight_totalsFolded.
  - by apply (totalsFolded_frame m).
  - unfold totalsFolded, sumFinalized, finalizedFights. simpl.
    by rewrite map_filter_empty, map_fold_empty.
  - by apply (totalsFolded_frame m).
  - unfold saveUserDataSnapshot.
    destruct (currentFightId m) as [c|] eqn:Ec; [|done].
    destruct (fights m !! c) as [f|] eqn:Ef; [|done].
    apply (insert_current_totalsFolded m c f); try done.
    simpl. destruct Hm as (_ & _ & Hc). by apply (Hc c f).
Qed.

Lemma run_totalsFolded evs m :
  consistent m → totalsFolded m → freshRun evs m →
  totalsFolded (run evs m).
Proof.
  revert m. induction evs as [|e evs IH]; intros m Hm Ht Hf; [done|].
  destruct Hf as [Hf1 Hf2]. simpl. apply IH; [| |done].
  - by apply step_consistent.
  - by apply step_totalsFolded.
Qed.

(** A finalized fight is touched by no step but [clearHistory]. *)
Lemma step_keeps_finalized e m k f :
  consistent m → freshStart e m →
  match e with ClearHistory _ => False | _ => True end →
  fights m !! k = Some f → isActive f = false →
  fights (step e m) !! k = Some f.
Proof.
  intros (_ & _ & Hc) Hfresh Hnc Hk A.
  assert (Hcur : ∀ c, currentFightId m = Some c → c ≠ k).
  { intros c Ec ->. specialize (Hc k f Hk Ec). simpl in Hc. congruence. }
  assert (Hfin : ∀ now m0,
             fights m0 = fights m → currentFightId m0 = currentFightId m →
             fights (finalizeCurrentFight now m0) !! k = Some f).
  { intros now m0 E1 E2. unfold finalizeCurrentFight. rewrite E2.
    destruct (currentFightId m) as [c|] eqn:Ec; [|by rewrite E1].
    rewrite E1.
    destruct (fights m !! c); [|by rewrite E1].
    simpl. rewrite lookup_insert_ne; [done|by apply Hcur]. }
  destruct e; simpl in *; try done.
  - unfold recordActivity.
    set (m2 := withLastActivity timestamp _).
    assert (H2 : fights m2 = fights m ∧ currentFightId m2 = currentFightId m).
    { unfold m2. by destruct (shouldStartNewFight m timestamp). }
    destruct H2 as [Hf2 Hc2]. clearbody m2.
    destruct (currentFightId m2) as [c|] eqn:Ec; [|by rewrite Hf2].
    unfold updateCurrentFightStats. rewrite Ec.
    destruct (fights m2 !! c); [|by rewrite Hf2].
    simpl. rewrite lookup_insert_ne; [by rewrite Hf2|].
    apply Hcur. congruence.
  - unfold resumeStartNewFight.
    destruct (pendingStarts m) as [|ts q]; [done|].
    unfold startNewFightBody. simpl.
    rewrite lookup_insert_ne by congruence.
    destruct (currentFightId m) eqn:Ec; [|done].
    by apply Hfin.
  - unfold checkForInactivity.
    destruct (currentFightId m) eqn:Ec; [|done].
    destruct (_ && _); [|done].
    change (fights (finalizeCurrentFight now m) !! k = Some f).
    by apply Hfin.
  - unfold saveUserDataSnapshot.
    destruct (currentFightId m) as [c|] eqn:Ec; [|done].
    destruct (fights m !! c); [|done].
    simpl. rewrite lookup_insert_ne; [done|by apply Hcur].
Qed.

End TotalsFolded.

(** In a run that creates no fight under an id already in the store, the
    cumulative damage, healing and duration are at every step the sums of
    these fields over the finalized fights of the store; the fight in
    progress is not counted. *)
Theorem cumulative_totals_are_sums (m : Manager) (evs : list Event) :
  consistent m →
  totalsFolded m →
  freshRun evs m →
  let m' := run evs m in
  cumDamage (cumulativeStats m') = sumFinalized totalDamage (fights m')
  ∧ cumHealing (cumulativeStats m') = sumFinalized totalHealing (fights m')
  ∧ cumDuration (cumulativeStats m') = sumFinalized duration (fights m').
Proof. intros Hm Ht Hf. by apply run_totalsFolded. Qed.

Lemma cumulative_totals_are_sums_witness :
  let m := run [RecordActivity 0 1000 "damage" 100; ResumeStartNewFight 0;
                RecordActivity 5 1005 "damage" 50;
                RecordActivity 9 1009 "healing" 20;
                CheckForInactivity 40000 40000;
                RecordActivity 50000 50000 "healing" 30;
                ResumeStartNewFight 50000;
                RecordActivity 50001 50001 "damage" 8]
             (newManager 0) in
  cumDamage (cumulativeStats m) = sumFinalized totalDamage (fights m)
  ∧ sumFinalized totalDamage (fights m) = 50
  ∧ sumFinalized totalHealing (fights m) = 20.
Proof.
  intros m.
  destruct (cumulative_totals_are_sums (newManager 0)
    [RecordActivity 0 1000 "damage" 100; ResumeStartNewFight 0;
     RecordActivity 5 1005 "damage" 50;
     RecordActivity 9 1009 "healing" 20;
     CheckForInactivity 40000 40000;
     RecordActivity 50000 50000 "healing" 30;
     ResumeStartNewFight 50000;
     RecordActivity 50001 50001 "damage" 8]) as (H & _ & _).
  - apply (bool_decide_unpack _). vm_compute. exact I.
  - repeat split; vm_compute; reflexivity.
  - repeat split; vm_compute; reflexivity.
  - split; [exact H|]. split; vm_compute; reflexivity.
Defined.

(** A fight that is finalized stays in the store as it is, through every
    run without [clearHistory] that creates no fight under an id already in
    the store. *)
Theorem finalized_fight_is_immutable (m : Manager) (evs : list Event)
    (k : string) (f : Fight) :
  consistent m →
  freshRun evs m →
  clearFree evs →
  fights m !! k = Some f →
  isActive f = false →
  fights (run evs m) !! k = Some f.
Proof.
  revert m. induction evs as [|e evs IH]; intros m Hm Hf Hc Hk A; [done|].
  destruct Hf as [Hf1 Hf2]. apply Forall_cons in Hc as [Hc1 Hc2].
  simpl. apply IH; try done.
  - by apply step_consistent.
  - by apply step_keeps_finalized.
Qed.

Lemma finalized_fight_is_immutable_witness :
  let m := run [RecordActivity 0 1000 "damage" 100; ResumeStartNewFight 0;
                RecordActivity 5 1005 "damage" 50;
                CheckForInactivity 40000 40000]
             (newManager 0) in
  fights (run [RecordActivity 50000 50000 "healing" 30;
               ResumeStartNewFight 50000;
               RecordActivity 50001 50001 "damage" 8;
               CheckForInactivity 90000 90000] m) !! "fight_1000"
  = Some (mkFight "fight_1000" 1000 (Some 40000) 39000 50 0 StatsMap false).
Proof.
  intros m. apply finalized_fight_is_immutable.
  - apply (bool_decide_unpack _). vm_compute. exact I.
  - repeat split; vm_compute; reflexivity.
  - repeat constructor.
  - vm_compute; reflexivity.
  - reflexivity.
Defined.

(** ** The shape of the store *)

Section WellFormed.

Implicit Types (m : Manager) (fs : gmap string Fight).

Lemma wellFormed_frame m m' :
  fights m' = fights m → currentFightId m' = currentFightId m →
  currentFightStartTime m' = currentFightStartTime m →
  wellFormed m → wellFormed m'.
Proof. unfold wellFormed, pointerInStore. intros -> -> ->. done. Qed.

(** The fight under the current pointer is replaced by one of the same
    start time, still active and well shaped. *)
Lemma insert_current_wellFormed m c f f' :
  wellFormed m → currentFightId m = Some c → fights m !! c = Some f →
  fightShape c f' → startTime f' = startTime f → isActive f' = true →
  wellFormed (withFights (<[c := f']> (fights m)) m).
Proof.
  intros [Hs Hp] Ec Ef Hf' Hst A'. split.
  - simpl. by apply map_Forall_insert_2.
  - unfold pointerInStore in *. simpl. rewrite Ec in *.
    destruct (currentFightStartTime m) as [ts|]; [|done].
    destruct Hp as (-> & g & Hg & Hgs & _). split; [done|].
    exists f'. rewrite lookup_insert_eq. split; [done|].
    split; [|done]. congruence.
Qed.

Lemma finalizeCurrentFight_shapes now m :
  map_Forall fightShape (fights m) →
  map_Forall fightShape (fights (finalizeCurrentFight now m)).
Proof.
  intros Hs. unfold finalizeCurrentFight.
  destruct (currentFightId m) as [c|] eqn:Ec; [|done].
  destruct (fights m !! c) as [f|] eqn:Ef; [|done].
  simpl. apply map_Forall_insert_2; [|done].
  destruct (Hs c f Ef) as (? & ? & _). unfold fightShape. simpl. done.
Qed.

Lemma startNewFightBody_wellFormed now ts m :
  map_Forall fightShape (fights m) → wellFormed (startNewFightBody now ts m).
Proof.
  intros Hs. unfold startNewFightBody.
  set (m1 := match currentFightId m with
             | Some _ => finalizeCurrentFight now m
             | None => m
             end).
  assert (H1 : map_Forall fightShape (fights m1)).
  { unfold m1. destruct (currentFightId m); [|done].
    by apply finalizeCurrentFight_shapes. }
  split.
  - simpl. apply map_Forall_insert_2; [|done].
    unfold fightShape. simpl. done.
  - unfold pointerInStore. simpl. split; [done|].
    exists (freshFight ts). by rewrite lookup_insert_eq.
Qed.

Lemma updateCurrentFightStats_wellFormed now ty v m :
  wellFormed m → wellFormed (updateCurrentFightStats now ty v m).
Proof.
  intros Hm. unfold updateCurrentFightStats.
  destruct (currentFightId m) as [c|] eqn:Ec; [|done].
  destruct (fights m !! c) as [f|] eqn:Ef; [|done].
  pose proof Hm as [Hs Hp].
  destruct (Hs c f Ef) as (? & ? & _).
  apply (insert_current_wellFormed m c f); [done|done|done| |done|].
  - unfold fightShape. simpl. done.
  - simpl; unfold pointerInStore in Hp; rewrite Ec in Hp;
    destruct (currentFightStartTime m); [|done];
    destruct Hp as (_ & g & Hg & _ & A); congruence.
Qed.

Lemma saveUserDataSnapshot_wellFormed users m :
  wellFormed m → wellFormed (saveUserDataSnapshot users m).
Proof.
  intros Hm. unfold saveUserDataSnapshot.
  destruct (currentFightId m) as [c|] eqn:Ec; [|done].
  destruct (fights m !! c) as [f|] eqn:Ef; [|done].
  pose proof Hm as [Hs Hp].
  apply (insert_current_wellFormed m c f); [done|done|done| |done|].
  - apply (Hs c f Ef).
  - simpl; unfold pointerInStore in Hp; rewrite Ec in Hp;
    destruct (currentFightStartTime m); [|done];
    destruct Hp as (_ & g & Hg & _ & A); congruence.
Qed.

Lemma step_wellFormed e m : wellFormed m → wellFormed (step e m).
Proof.
  intros Hm. destruct e; simpl.
  - unfold recordActivity.
    set (m2 := withLastActivity timestamp _).
    assert (H2 : wellFormed m2).
    { apply (wellFormed_frame m); [| | |done];
        unfold m2; by destruct (shouldStartNewFight m timestamp). }
    destruct (currentFightId m2); [|done].
    by apply updateCurrentFightStats_wellFormed.
  - unfold resumeStartNewFight.
    destruct (pendingStarts m) as [|ts q]; [done|].
    apply startNewFightBody_wellFormed. by destruct Hm.
  - unfold checkForInactivity.
    destruct (currentFightId m); [|done].
    destruct (_ && _); [|done].
    split; [|done]. simpl. apply finalizeCurrentFight_shapes. by destruct Hm.
  - by apply (wellFormed_frame m).
  - split; [apply map_Forall_empty|done].
  - by apply (wellFormed_frame m).
  - by apply saveUserDataSnapshot_wellFormed.
Qed.

Lemma run_wellFormed evs m : wellFormed m → wellFormed (run evs m).
Proof.
  revert m. induction evs as [|e evs IH]; intros m Hm; [done|].
  simpl. apply IH. by apply step_wellFormed.
Qed.

Lemma newManager_wellFormed now : wellFormed (newManager now).
Proof. split; [apply map_Forall_empty|done]. Qed.

End WellFormed.

(** Through every run of a new manager, each fight of the store carries its
    key as id, the key is [fight_<startTime>], and its duration is
    [endTime - startTime] (zero, with zero totals, while it has no end time);
    the current pointer, when set, names an active fight of the store that
    started at [currentFightStartTime]. *)
Theorem store_is_well_formed (n0 : Z) (evs : list Event) :
  let m := run evs (newManager n0) in
  (∀ k f, fights m !! k = Some f → fightShape k f)
  ∧ pointerInStore m
  ∧ (getCurrentFight m = None ↔ currentFightId m = None).
Proof.
  intros m.
  destruct (run_wellFormed evs (newManager n0) (newManager_wellFormed n0))
    as [Hs Hp].
  fold m in Hs, Hp. split; [exact Hs|]. split; [exact Hp|].
  unfold getCurrentFight, pointerInStore in *.
  destruct (currentFightId m) as [c|]; [|done].
  destruct (currentFightStartTime m); [|done].
  destruct Hp as (_ & f & -> & _). done.
Qed.

(** Through every run of a new manager, [recordActivity] applies the
    activity to the current fight whenever there is a current pointer: the
    activity is dropped only when no fight is current. *)
Theorem activity_reaches_current_fight (n0 : Z) (evs : list Event)
    (now timestamp value : Z) (activityType c : string) :
  let m := run evs (newManager n0) in
  currentFightId m = Some c →
  ∃ f, fights m !! c = Some f
    ∧ fights (recordActivity now timestamp activityType value m) !! c
      = Some (applyActivity now activityType value f).
Proof.
  intros m Ec.
  destruct (run_wellFormed evs (newManager n0) (newManager_wellFormed n0))
    as [_ Hp].
  fold m in Hp. unfold pointerInStore in Hp. rewrite Ec in Hp.
  destruct (currentFightStartTime m); [|done].
  destruct Hp as (_ & f & Hf & _). exists f. split; [done|].
  unfold recordActivity.
  set (m2 := withLastActivity timestamp _).
  assert (H2 : fights m2 = fights m ∧ currentFightId m2 = Some c).
  { unfold m2. by destruct (shouldStartNewFight m timestamp). }
  destruct H2 as [Hf2 Hc2]. clearbody m2.
  rewrite Hc2. unfold updateCurrentFightStats. rewrite Hc2, Hf2, Hf.
  simpl. apply lookup_insert_eq.
Qed.

Lemma activity_reaches_current_fight_witness :
  let m := run [RecordActivity 0 1000 "damage" 100; ResumeStartNewFight 0]
             (newManager 0) in
  totalDamage <$> fights (recordActivity 7 1007 "damage" 50 m) !! "fight_1000"
  = Some 50.
Proof.
  intros m.
  destruct (activity_reaches_current_fight 0
              [RecordActivity 0 1000 "damage" 100; ResumeStartNewFight 0]
              7 1007 50 "damage" "fight_1000") as (f & Hf & Hr).
  - vm_compute; reflexivity.
  - fold m in Hf, Hr. rewrite Hr.
    assert (f = freshFight 1000) as ->
      by (apply (inj Some); rewrite <- Hf; vm_compute; reflexivity).
    reflexivity.
Defined.

(** ** Transitions *)





(** The watchdog does nothing as long as no activity with a positive
    timestamp has been recorded: a fight started by [forceStartNewFight]
    alone is never closed by [checkForInactivity], whatever the time. *)
Theorem watchdog_needs_activity (m : Manager) (evs : list Event) :
  lastActivityTime m ≤ 0 →
  Forall (λ e, match e with CheckForInactivity _ _ => True | _ => False end)
         evs →
  run evs m = m.
Proof.
  intros HT. induction 1 as [|e evs He _ IH]; [done|].
  destruct e; try done. simpl.
  replace (checkForInactivity now currentTime m) with m; [exact IH|].
  unfold checkForInactivity. destruct (currentFightId m); [|done].
  by rewrite (bool_decide_eq_false_2 (_ > 0)) by lia.
Qed.

Lemma watchdog_needs_activity_witness :
  let m := run [ForceStartNewFight 1000; ResumeStartNewFight 1000]
             (newManager 0) in
  isActive <$> getCurrentFight
                 (run [CheckForInactivity 99000 99000;
                       CheckForInactivity 999000 999000] m)
  = Some true.
Proof.
  intros m. rewrite (watchdog_needs_activity m).
  - vm_compute; reflexivity.
  - vm_compute; discriminate.
  - repeat constructor.
Defined.

(** ** Snapshots of the participants *)

(** [saveUserDataSnapshot] replaces the snapshot of the current fight as a
    whole: of two snapshots in a row only the second is kept.  It changes
    nothing but the [userStats] of the current fight. *)
Theorem snapshot_replaces (users1 users2 : list (string * Summary))
    (m : Manager) :
  let m' := saveUserDataSnapshot users2 m in
  saveUserDataSnapshot users2 (saveUserDataSnapshot users1 m) = m'
  ∧ cumulativeStats m' = cumulativeStats m
  ∧ currentFightId m' = currentFightId m
  ∧ dom (fights m') = dom (fights m)
  ∧ (∀ k, Some k ≠ currentFightId m → fights m' !! k = fights m !! k)
  ∧ (∀ f, getCurrentFight m = Some f →
       getCurrentFight m'
       = Some (mkFight (id f) (startTime f) (endTime f) (duration f)
                 (totalDamage f) (totalHealing f)
                 (StatsObject (list_to_map (reverse users2))) (isActive f))).
Proof.
  intros m'.
  destruct (currentFightId m) as [c|] eqn:Ec.
  - destruct (fights m !! c) as [f|] eqn:Ef.
    + set (snap users := mkFight (id f) (startTime f) (endTime f)
               (duration f) (totalDamage f) (totalHealing f)
               (StatsObject (list_to_map (reverse users))) (isActive f)).
      assert (H1 : ∀ users, saveUserDataSnapshot users m
                   = withFights (<[c := snap users]> (fights m)) m).
      { intros users. unfold saveUserDataSnapshot. by rewrite Ec, Ef. }
      assert (H2 : saveUserDataSnapshot users2 (saveUserDataSnapshot users1 m)
                   = m').
      { unfold m'. rewrite !H1. unfold saveUserDataSnapshot. simpl.
        rewrite Ec. rewrite lookup_insert_eq. simpl.
        by rewrite insert_insert_eq. }
      split; [done|]. unfold m'. rewrite H1. simpl.
      split; [done|]. split; [done|]. split.
      { apply dom_insert_lookup_L. by rewrite Ef. }
      split.
      * intros k Hk. apply lookup_insert_ne. congruence.
      * intros g Hg. unfold getCurrentFight in *. simpl.
        rewrite Ec in *. rewrite lookup_insert_eq. by simplify_eq.
    + assert (H1 : ∀ users, saveUserDataSnapshot users m = m).
      { intros users. unfold saveUserDataSnapshot. by rewrite Ec, Ef. }
      unfold m'. rewrite !H1. repeat split; try done.
      intros g Hg. unfold getCurrentFight in Hg. rewrite Ec, Ef in Hg. done.
  - assert (H1 : ∀ users, saveUserDataSnapshot users m = m).
    { intros users. unfold saveUserDataSnapshot. by rewrite Ec. }
    unfold m'. rewrite !H1. repeat split; try done.
    intros g Hg. unfold getCurrentFight in Hg. by rewrite Ec in Hg.
Qed.

(** ** Persistence across a restart *)

Lemma fightOfJson_toJson_object (f : Fight) :
  userStats f ≠ StatsMap → fightOfJson (fightToJson f) = f.
Proof. destruct f as [? ? ? ? ? ? [|o] ?]; [done|]. by intros _. Qed.

Lemma saved_fights_loaded (now : Z) (S m0 : Manager) :
  fights (loadFightHistory (Some (saveFightHistory now S)) m0)
  = (λ f, fightOfJson (fightToJson f)) <$> fights S.
Proof. simpl. by rewrite <- map_fmap_compose. Qed.

(** When every fight of the store holds its participants in a plain object,
    as after a snapshot or after a load, loading what [saveFightHistory]
    wrote gives back the same store and the same counters, and leaves the
    session fields of the loading manager as they are. *)
Theorem save_load_exact (S m0 : Manager) (now : Z) :
  map_Forall (λ _ f, userStats f ≠ StatsMap) (fights S) →
  let m := loadFightHistory (Some (saveFightHistory now S)) m0 in
  fights m = fights S
  ∧ cumulativeStats m = cumulativeStats S
  ∧ currentFightId m = currentFightId m0
  ∧ currentFightStartTime m = currentFightStartTime m0
  ∧ lastActivityTime m = lastActivityTime m0
  ∧ fightTimeout m = fightTimeout m0
  ∧ pendingStarts m = pendingStarts m0.
Proof.
  intros Hobj m. split; [|done].
  unfold m. rewrite saved_fights_loaded.
  apply map_eq. intros k. rewrite lookup_fmap.
  destruct (fights S !! k) as [f|] eqn:Ef; [|done]. simpl.
  f_equal. apply fightOfJson_toJson_object. by apply (Hobj k f).
Qed.

Lemma save_load_exact_witness :
  fights (loadFightHistory (Some (saveFightHistory 5000 restartedManager))
            (newManager 6000))
  = fights restartedManager.
Proof.
  apply (save_load_exact restartedManager (newManager 6000) 5000).
  apply (bool_decide_unpack _). vm_compute. exact I.
Defined.

Lemma finalizedFights_saved_loaded (fs : gmap string Fight) :
  finalizedFights ((λ f, fightOfJson (fightToJson f)) <$> fs)
  = (λ f, fightOfJson (fightToJson f)) <$> finalizedFights fs.
Proof.
  unfold finalizedFights. rewrite map_filter_fmap. by f_equal.
Qed.

(** A restart keeps the manager consistent when no fight was in progress: if
    a consistent manager with no active fight is saved, a new process that
    loads the file is consistent, and lists the same completed fights. *)
Theorem restart_keeps_consistency (S : Manager) (now n0 : Z) :
  consistent S →
  noActive (fights S) →
  let m := loadFightHistory (Some (saveFightHistory now S)) (newManager n0) in
  consistent m
  ∧ length (getAllFights m) = length (getAllFights S)
  ∧ ∀ evs, freshRun evs m →
      cumFights (cumulativeStats (run evs m))
      = Z.of_nat (size (finalizedFights (fights (run evs m)))).
Proof.
  intros (Hn & _ & _) Hna m.
  assert (Hm : consistent m).
  { split; [|split].
    - unfold fightsCounted, m. rewrite saved_fights_loaded.
      rewrite finalizedFights_saved_loaded, map_size_fmap. exact Hn.
    - unfold activeIsCurrent, m. rewrite saved_fights_loaded.
      intros k g Hg A. rewrite lookup_fmap in Hg.
      destruct (fights S !! k) as [f|] eqn:Ef; [|done].
      simpl in Hg. simplify_eq. simpl in A.
      specialize (Hna k f Ef). simpl in Hna. congruence.
    - intros k g Hg Ec. done. }
  split; [done|]. split.
  - rewrite !getAllFights_length.
    unfold m. rewrite saved_fights_loaded, finalizedFights_saved_loaded.
    apply map_size_fmap.
  - intros evs Hf. by destruct (run_consistent evs m Hm Hf) as [H _].
Qed.

Lemma restart_keeps_consistency_witness :
  let S := run [RecordActivity 0 1000 "damage" 100; ResumeStartNewFight 0;
                RecordActivity 5 1005 "damage" 50;
                CheckForInactivity 40000 40000]
             (newManager 0) in
  consistent (loadFightHistory (Some (saveFightHistory 41000 S))
                (newManager 50000)).
Proof.
  intros S.
  apply (restart_keeps_consistency S 41000 50000).
  - apply (bool_decide_unpack _). vm_compute. exact I.
  - apply (bool_decide_unpack _). vm_compute. exact I.
Defined.


(** * Properties of the client pages *)

(** ** Colours *)

Lemma getNextColorShades_index (i : nat) :
  ((getNextColorShades i).2 < 9)%nat.
Proof.
  change ((i + 1) `mod` 9 < 9)%nat. by apply Nat.mod_upper_bound.
Qed.

Lemma getNextColorShades_inj (i j : nat) :
  (i < 9)%nat → (j < 9)%nat →
  (getNextColorShades i).1 = (getNextColorShades j).1 → i = j.
Proof.
  intros Hi Hj.
  do 9 (destruct i as [|i]; [do 9 (destruct j as [|j];
          [(reflexivity || (vm_compute; discriminate))|]); lia|]).
  lia.
Qed.

(** [getNextColorShades] walks through the nine hues in a cycle: from an
    index below nine the hue is defined and the next index is below nine, nine
    calls come back to the same index, and two indices below nine give the
    same shades only if they are equal. *)
Theorem getNextColorShades_cycle (i : nat) :
  (i < 9)%nat →
  ((getNextColorShades i).2 < 9)%nat
  ∧ (∃ h, colorHues !! i = Some h
       ∧ (getNextColorShades i).1
         = mkShades (hsl (Some h) 90 30) (hsl (Some h) 90 20))
  ∧ Nat.iter 9 (λ j, (getNextColorShades j).2) i = i
  ∧ (∀ j, (j < 9)%nat →
       (getNextColorShades i).1 = (getNextColorShades j).1 → i = j).
Proof.
  intros Hi. split; [apply getNextColorShades_index|]. split; [|split].
  - do 9 (destruct i as [|i]; [eexists; split; reflexivity|]). lia.
  - do 9 (destruct i as [|i]; [reflexivity|]). lia.
  - intros j Hj. by apply getNextColorShades_inj.
Qed.

Lemma getNextColorShades_cycle_witness :
  (getNextColorShades 8).2 = 0%nat
  ∧ (getNextColorShades 8).1
    = mkShades "hsl(240, 90%, 30%)" "hsl(240, 90%, 20%)".
Proof.
  destruct (getNextColorShades_cycle 8) as (_ & (h & Hh & Hc) & _ & _);
    [lia|].
  split; [reflexivity|]. rewrite Hc.
  assert (h = 240) as -> by (apply (inj Some); rewrite <- Hh; reflexivity).
  reflexivity.
Defined.






(** ** Panels *)

Lemma panelStep_onePanelShown (e : PanelEvent) (p : Panels) :
  onePanelShown p → onePanelShown (panelStep e p).
Proof.
  unfold onePanelShown. destruct p as [c s h t b]. simpl.
  intros [(-> & -> & ->)|[(-> & -> & ->)|(-> & -> & ->)]];
    destruct e as [| |[]]; simpl; naive_solver.
Qed.

(** Whatever the sequence of clicks on the settings and help buttons and of
    pass-through switches, exactly one of the three containers (list,
    settings, help) is shown, as soon as this was so at the start. *)
Theorem one_panel_shown (p : Panels) (evs : list PanelEvent) :
  onePanelShown p →
  onePanelShown (foldl (λ p e, panelStep e p) p evs).
Proof.
  revert p. induction evs as [|e evs IH]; intros p Hp; [done|].
  simpl. apply IH. by apply panelStep_onePanelShown.
Qed.

Lemma one_panel_shown_witness :
  onePanelShown
    (foldl (λ p e, panelStep e p)
       (mkPanels false true true true [false; false; false; false; false; false])
       [ToggleSettings; ToggleHelp; TogglePassthrough true; ToggleHelp]).
Proof.
  apply one_panel_shown. left. repeat split.
Defined.

(** ** The timeout slider *)

(** A position of the timeout slider is taken over by the server exactly
    when it reads as a number of seconds from 5 to 60: the timeout of the
    manager is then that many thousand milliseconds; any other request is
    answered with an error and leaves the manager as it is. *)
Theorem slider_timeout (seconds : option Z) (m : Manager) :
  let r := sliderUpdateFightTimeout seconds m in
  (responseOk r.1 = true ↔ ∃ s, seconds = Some s ∧ 5 ≤ s ≤ 60)
  ∧ (∀ s, seconds = Some s → 5 ≤ s ≤ 60 →
       r = (mkResponse 200 0, updateFightTimeout (s * 1000) m))
  ∧ (responseOk r.1 = false → r = (mkResponse 400 1, m)).
Proof.
  unfold sliderUpdateFightTimeout, sliderTimeout, postFightTimeout.
  destruct seconds as [s|]; simpl.
  - destruct (decide (5 ≤ s ≤ 60)) as [Hs|Hs].
    + rewrite (bool_decide_eq_false_2 (s * 1000 < 5000)) by lia.
      rewrite (bool_decide_eq_false_2 (s * 1000 > 60000)) by lia.
      simpl. split; [|split].
      * split; [|done]. intros _. by exists s.
      * intros s' ? ?. by simplify_eq.
      * intros H. vm_compute in H. done.
    + assert (Hb : bool_decide (s * 1000 < 5000)
                   || bool_decide (s * 1000 > 60000) = true).
      { apply orb_true_iff.
        destruct (decide (s < 5)); [left|right];
          apply bool_decide_eq_true_2; lia. }
      rewrite Hb. simpl. split; [|split].
      * split; [intros H; vm_compute in H; done|].
        intros (s' & ? & ?). simplify_eq. lia.
      * intros s' ? ?. simplify_eq. lia.
      * done.
  - split; [|split].
    + split; [intros H; vm_compute in H; done|]. by intros (s' & ? & ?).
    + done.
    + done.
Qed.

Lemma slider_timeout_witness :
  fightTimeout (sliderUpdateFightTimeout (Some 30) (newManager 0)).2 = 30000.
Proof.
  destruct (slider_timeout (Some 30) (newManager 0)) as (_ & H & _).
  rewrite (H 30 eq_refl); [reflexivity|lia].
Defined.

(** ** Updates of the participants *)

Section UserUpdates.

Implicit Types (n e : gmap string Field)
  (a users : gmap string (gmap string Field)).

Ltac skip_inserts :=
  repeat first
    [ rewrite lookup_insert_ne by done
    | match goal with
      | |- context [match ?x with _ => _ end] => destruct x
      end ].

Lemma updateUser_lookup_id uid n e :
  updateUser uid n e !! "id" = Some (FString uid).
Proof. unfold updateUser. skip_inserts; apply lookup_insert_eq. Qed.

Lemma updateUser_lookup_other uid n e key :
  key ≠ "id" → key ≠ "name" → key ≠ "profession" → key ≠ "fightPoint" →
  updateUser uid n e !! key = (n ∪ e) !! key.
Proof. intros. unfold updateUser. by skip_inserts. Qed.

Lemma updateUser_lookup_name uid n e :
  updateUser uid n e !! "name"
  = if truthy (n !! "name") && isString (n !! "name")
       && negb (bool_decide (n !! "name" = Some (FString "未知")))
    then n !! "name"
    else if negb (truthy (e !! "name"))
            || bool_decide (e !! "name" = Some (FString "..."))
         then Some (FString "...")
         else (n ∪ e) !! "name".
Proof.
  unfold updateUser.
  destruct (isNumber (n !! "fightPoint"));
    [destruct (n !! "fightPoint")|
     destruct (bool_decide (e !! "fightPoint" = None))];
    rewrite ?lookup_insert_ne by done;
    (destruct (truthy (n !! "profession") && isString (n !! "profession"));
     [destruct (n !! "profession")|
      destruct (negb (truthy (e !! "profession")))]);
    rewrite ?lookup_insert_ne by done;
    (destruct (truthy (n !! "name") && isString (n !! "name")
               && negb (bool_decide (n !! "name" = Some (FString "未知"))))
       eqn:Hv;
     [destruct (n !! "name") eqn:Hn; [by rewrite lookup_insert_eq|by simpl in Hv]|
      destruct (negb (truthy (e !! "name"))
                || bool_decide (e !! "name" = Some (FString "...")));
      [by rewrite lookup_insert_eq|by rewrite lookup_insert_ne]]).
Qed.

Lemma updateUser_name_is_Some uid n e :
  is_Some (updateUser uid n e !! "name").
Proof.
  rewrite updateUser_lookup_name.
  destruct (truthy (n !! "name") && _ && _) eqn:Hv.
  - destruct (n !! "name"); [done|]. done.
  - destruct (negb (truthy (e !! "name")) || _) eqn:He; [done|].
    apply orb_false_iff in He as [He _].
    rewrite lookup_union.
    destruct (n !! "name") as [x|], (e !! "name") as [y|]; simpl in *;
      [by exists x|by exists x|by exists y|done].
Qed.

Lemma updateUser_profession_is_Some uid n e :
  is_Some (updateUser uid n e !! "profession").
Proof.
  unfold updateUser.
  destruct (isNumber (n !! "fightPoint"));
    [destruct (n !! "fightPoint")|
     destruct (bool_decide (e !! "fightPoint" = None))];
    rewrite ?lookup_insert_ne by done;
    (destruct (truthy (n !! "profession") && isString (n !! "profession"))
       eqn:Hp;
     [destruct (n !! "profession"); [by rewrite lookup_insert_eq|done]|
      destruct (negb (truthy (e !! "profession"))) eqn:He;
      [by rewrite lookup_insert_eq|]]);
    (assert (Hu : is_Some ((n ∪ e) !! "profession"));
     [rewrite lookup_union;
      destruct (n !! "profession") as [x|], (e !! "profession") as [y|];
        simpl in *; [by exists x|by exists x|by exists y|done]|]);
    skip_inserts; done.
Qed.

Lemma updateUser_fightPoint_is_Some uid n e :
  is_Some (updateUser uid n e !! "fightPoint").
Proof.
  unfold updateUser.
  destruct (isNumber (n !! "fightPoint")) eqn:Hf.
  - destruct (n !! "fightPoint"); [by rewrite lookup_insert_eq|done].
  - destruct (bool_decide (e !! "fightPoint" = None)) eqn:He;
      [by rewrite lookup_insert_eq|].
    apply bool_decide_eq_false in He.
    assert (Hu : is_Some ((n ∪ e) !! "fightPoint")).
    { rewrite lookup_union.
      destruct (n !! "fightPoint") as [x|], (e !! "fightPoint") as [y|];
        simpl in *; [by exists x|by exists x|by exists y|done]. }
    skip_inserts; done.
Qed.

Lemma processDataUpdate_lookup users a uid :
  processDataUpdate false (Some users) a !! uid
  = match users !! uid with
    | Some n => Some (updateUser uid n (default ∅ (a !! uid)))
    | None => a !! uid
    end.
Proof.
  simpl. rewrite lookup_union, map_lookup_imap.
  destruct (users !! uid); simpl; [|by rewrite (left_id_L None _)].
  by destruct (a !! uid).
Qed.

End UserUpdates.

(** [processDataUpdate] does nothing while paused or when the message has no
    [user].  Otherwise the users of the message are added to the known ones
    and the others are left as they are; each user of the message ends with
    its id under [id], with a [name], a [profession] and a [fightPoint], and
    with every other property taken from the message, or else from what was
    known. *)
Theorem processDataUpdate_merges
    (dataUser : option (gmap string (gmap string Field)))
    (users allUsers : gmap string (gmap string Field)) :
  processDataUpdate true dataUser allUsers = allUsers
  ∧ processDataUpdate false None allUsers = allUsers
  ∧ (let a' := processDataUpdate false (Some users) allUsers in
     dom a' = dom users ∪ dom allUsers
     ∧ (∀ uid, users !! uid = None → a' !! uid = allUsers !! uid)
     ∧ (∀ uid n, users !! uid = Some n →
          ∃ u, a' !! uid = Some u
            ∧ u !! "id" = Some (FString uid)
            ∧ is_Some (u !! "name")
            ∧ is_Some (u !! "profession")
            ∧ is_Some (u !! "fightPoint")
            ∧ ∀ key, key ≠ "id" → key ≠ "name" → key ≠ "profession" →
                key ≠ "fightPoint" →
                u !! key = (n ∪ default ∅ (allUsers !! uid)) !! key)).
Proof.
  split; [done|]. split; [done|]. intros a'. split; [|split].
  - apply set_eq. intros uid. rewrite elem_of_union, !elem_of_dom.
    unfold a'. rewrite processDataUpdate_lookup.
    destruct (users !! uid) eqn:Hu.
    + split; [intros _; left; done|done].
    + split; [by right|]. intros [[? ?]|?]; done.
  - intros uid Hu. unfold a'. by rewrite processDataUpdate_lookup, Hu.
  - intros uid n Hu. eexists. split.
    { unfold a'. by rewrite processDataUpdate_lookup, Hu. }
    split; [apply updateUser_lookup_id|].
    split; [apply updateUser_name_is_Some|].
    split; [apply updateUser_profession_is_Some|].
    split; [apply updateUser_fightPoint_is_Some|].
    intros key ? ? ? ?. by apply updateUser_lookup_other.
Qed.

(** The name of a user after an update: a name of the message that is a
    text, not empty and not the placeholder of the server, is taken; when the
    message has no name, a known name is kept, and ["..."] stands for a
    missing one; a placeholder in the message replaces a known name. *)
Theorem updateUser_name (uid : string) (n e : gmap string Field) :
  let u := updateUser uid n e in
  (∀ s, n !! "name" = Some (FString s) → s ≠ "" → s ≠ "未知" →
     u !! "name" = Some (FString s))
  ∧ (n !! "name" = None → ∀ s, e !! "name" = Some (FString s) → s ≠ "" →
     u !! "name" = Some (FString s))
  ∧ (n !! "name" = None → truthy (e !! "name") = false →
     u !! "name" = Some (FString "..."))
  ∧ (n !! "name" = Some (FString "未知") →
     ∀ s, e !! "name" = Some (FString s) → s ≠ "" → s ≠ "..." →
     u !! "name" = Some (FString "未知")).
Proof.
  intros u. unfold u. rewrite updateUser_lookup_name.
  split; [|split; [|split]].
  - intros s Hn Hs1 Hs2. rewrite Hn. simpl.
    rewrite (bool_decide_eq_false_2 (s = "")) by done.
    by rewrite (bool_decide_eq_false_2 (Some (FString s) = _)) by congruence.
  - intros Hn s He Hs. rewrite Hn, He. simpl.
    rewrite (bool_decide_eq_false_2 (s = "")) by done. simpl.
    case_bool_decide as Hd; [congruence|].
    by rewrite lookup_union, Hn, He.
  - intros Hn He. rewrite Hn, He. done.
  - intros Hn s He Hs1 Hs2. rewrite Hn, He. simpl.
    rewrite (bool_decide_eq_false_2 (s = "")) by done. simpl.
    rewrite (bool_decide_eq_false_2 (Some (FString s) = _)) by congruence.
    by rewrite lookup_union, Hn, He.
Qed.

Lemma updateUser_name_witness :
  updateUser "7" {[ "name" := FString "Aria" ]} ∅ !! "name"
  = Some (FString "Aria")
  ∧ updateUser "7" {[ "total_dps" := FNumber 5 0 ]}
      {[ "name" := FString "Aria" ]} !! "name"
    = Some (FString "Aria")
  ∧ updateUser "7" {[ "total_dps" := FNumber 5 0 ]} ∅ !! "name"
    = Some (FString "...").
Proof.
  split; [|split].
  - destruct (updateUser_name "7" {[ "name" := FString "Aria" ]} ∅)
      as (H & _).
    apply H; [reflexivity|discriminate|discriminate].
  - destruct (updateUser_name "7" {[ "total_dps" := FNumber 5 0 ]}
                {[ "name" := FString "Aria" ]}) as (_ & H & _).
    apply H; [reflexivity|reflexivity|discriminate].
  - destruct (updateUser_name "7" {[ "total_dps" := FNumber 5 0 ]} ∅)
      as (_ & _ & H & _).
    apply H; reflexivity.
Defined.
